(** * react-bidirectional-list: the throttle gate and the list controller

    A shallow embedding of [src/hooks/useThrottle.ts] and of
    [src/components/BidirectionalList.tsx].

    Conventions of the embedding.
    - JavaScript numbers are read as integers ([Z]): [Date.now()],
      [scrollWidth] and [scrollHeight] are integral, and the arithmetic of
      the two files is one subtraction, one addition and one comparison.
    - A React ref ([useRef]) is a field of the state record that the hook
      or the component threads through its calls; React state ([useState])
      is a field too, updated by its setter.
    - An assignment to [scrollLeft] or [scrollTop] stores the assigned
      value; how the browser clamps an offset to the scrollable range is
      not part of the two files.
    - What leaves the component (a write to the viewport, a console
      message, a call of [onHead] / [onTail]) is appended to an effect
      trace, so that "nothing was written" and "the callback did not run"
      are statements about that trace. *)

From Stdlib Require Import ZArith QArith List String Ascii Bool Lia.
Import ListNotations.
Local Open Scope string_scope.
Local Open Scope list_scope.
Local Open Scope Z_scope.

(** ** JavaScript values returned through the throttle gate *)

(** The gate returns [R | undefined]: an untagged union, so the model of a
    result is a JavaScript value and not an [option]. *)
Inductive value : Type :=
| VUndefined
| VBool (b : bool)
| VNum (n : Z)
| VStr (s : string).

(** ** useThrottle *)

Module Throttle.

Section Gate.
(** [A] is the argument tuple of the wrapped callback and [St] the state
    the program runs in; [lastCallRef] is a cell of that state, read
    with [getRef] and assigned with [setRef]. *)
Context {A St : Type}.
Variable getRef : St -> Z.
Variable setRef : Z -> St -> St.

(** The default value of the [delay] parameter. *)
Definition default_delay : Z := 1000.

Definition delay_of (delay : option Z) : Z :=
  match delay with
  | Some d => d
  | None => default_delay
  end.

(** The test of line 18: [now - lastCallRef.current >= delay]. *)
Definition passes (delay now lastCall : Z) : bool :=
  now - lastCall >=? delay.

(** The memoized function returned by [useThrottle(callback, delay)],
    called with [args] when [Date.now()] is [now].  When the test
    passes the ref is assigned first and the callback runs in the
    state so obtained; otherwise the function falls off its end, which
    returns [undefined]. *)
Definition useThrottle
    (callback : A -> St -> value * St) (delay : option Z)
    (now : Z) (args : A) (st : St) : value * St :=
  if passes (delay_of delay) now (getRef st) then
    callback args (setRef now st)
  else
    (VUndefined, st).
End Gate.

(** [useRef(0)] *)
Definition initial_lastCall : Z := 0.

(** A gate on its own: its ref, and the timestamps at which the wrapped
    callback was called (oldest first). *)
Record Gate : Type := mkGate {
  lastCallRef : Z;
  calls : list Z
}.

Definition set_lastCallRef (x : Z) (g : Gate) : Gate := mkGate x (calls g).

(** A callback that only notes the timestamp it is called with; it
    returns nothing. *)
Definition note_call (t : Z) (g : Gate) : value * Gate :=
  (VUndefined, mkGate (lastCallRef g) (calls g ++ [t])).

(** A callback that returns the number of calls noted so far. *)
Definition count_call (t : Z) (g : Gate) : value * Gate :=
  (VNum (Z.of_nat (List.length (calls g))), mkGate (lastCallRef g) (calls g ++ [t])).

(** One attempt at time [t] on a gate wrapped around [note_call]. *)
Definition attempt (delay t : Z) (g : Gate) : Gate :=
  snd (useThrottle lastCallRef set_lastCallRef note_call (Some delay) t t g).

(** Whether that attempt reached the callback. *)
Definition reached (delay t : Z) (g : Gate) : bool :=
  negb (Nat.eqb (List.length (calls (attempt delay t g))) (List.length (calls g))).

(** The attempts of a sequence that reached the callback: one flag per
    attempt. *)
Fixpoint forwarded (delay : Z) (g : Gate) (ts : list Z) : list bool :=
  match ts with
  | [] => []
  | t :: ts' => reached delay t g :: forwarded delay (attempt delay t g) ts'
  end.

(** A gate as [useThrottle] creates it. *)
Definition fresh : Gate := mkGate initial_lastCall [].

(** The timestamp of the last forwarded attempt among the first [i] of a
    sequence, read off the flags; [init] when there is none. *)
Fixpoint last_forwarded {T : Type} (init : T) (inj : Z -> T)
    (flags : list bool) (ts : list Z) (i : nat) : T :=
  match i, flags, ts with
  | S i', f :: flags', t :: ts' =>
      last_forwarded (if f then inj t else init) inj flags' ts' i'
  | _, _, _ => init
  end.

(** The gate as the specification words it: an attempt is forwarded iff
    the time since the last forwarded attempt is at least the cooldown,
    and an attempt with no forwarded attempt before it is forwarded. *)
Definition spec_forwarded (delay : Z) (ts : list Z) (flags : list bool) : Prop :=
  List.length flags = List.length ts /\
  forall i, (i < List.length ts)%nat ->
    nth i flags false =
      match last_forwarded None Some flags ts i with
      | Some l => nth i ts 0 - l >=? delay
      | None => true
      end.

(** The gate after a sequence of attempts on [note_call]. *)
Definition attempt_all (delay : Z) (g : Gate) (ts : list Z) : Gate :=
  fold_left (fun g t => attempt delay t g) ts g.

(** Each time of [l] is at least [delay] after the one before it, the
    first one at least [delay] after [prev]. *)
Fixpoint chain (delay prev : Z) (l : list Z) : Prop :=
  match l with
  | [] => True
  | a :: l' => delay <= a - prev /\ chain delay a l'
  end.

End Throttle.

(** ** BidirectionalList *)

Module BidirectionalList.

(** [type Action = 'head' | 'tail'] *)
Inductive Action : Type := head | tail.

Definition Action_eqb (a b : Action) : bool :=
  match a, b with
  | head, head | tail, tail => true
  | _, _ => false
  end.

(** The four properties of the viewport [div] that the component reads or
    writes. *)
Record Viewport : Type := mkViewport {
  scrollWidth : Z;
  scrollHeight : Z;
  scrollLeft : Z;
  scrollTop : Z
}.

Definition set_scrollLeft (x : Z) (v : Viewport) : Viewport :=
  mkViewport (scrollWidth v) (scrollHeight v) x (scrollTop v).

Definition set_scrollTop (x : Z) (v : Viewport) : Viewport :=
  mkViewport (scrollWidth v) (scrollHeight v) (scrollLeft v) x.

(** The props that the controller logic reads.  [direction] is kept as the
    string it is at run time, so that the [default] branch of the [switch]
    can be reached.  An optional prop is an [option], [None] when it is
    [undefined].  [onHead] and [onTail] say whether the optional callback
    was supplied; a call of it is an entry of the trace. *)
Record Props : Type := mkProps {
  direction : string;
  hasMoreAtHead : bool;
  hasMoreAtTail : bool;
  throttleDelay : option Z;
  disableLog : option bool;
  onHead : bool;
  onTail : bool
}.

(** What the component does to the outside. *)
Inductive Effect : Type :=
| WriteScrollLeft (x : Z)          (* viewportRef.current.scrollLeft = x *)
| WriteScrollTop (x : Z)           (* viewportRef.current.scrollTop = x *)
| ConsoleWarn (current original : string)
| ConsoleError
| CallOnHead
| CallOnTail.

(** The refs and the state of one mounted component, the props of its
    last render, and the trace of its effects (oldest first). *)
Record State : Type := mkState {
  props : Props;
  directionMemo : string;
  viewportRef : option Viewport;
  action : option Action;
  scrollWidthRef : Z;
  scrollHeightRef : Z;
  scrollLeftRef : Z;
  scrollTopRef : Z;
  headLastCallRef : Z;
  tailLastCallRef : Z;
  trace : list Effect
}.

Definition setAction (a : option Action) (s : State) : State :=
  mkState (props s) (directionMemo s) (viewportRef s) a
    (scrollWidthRef s) (scrollHeightRef s) (scrollLeftRef s) (scrollTopRef s)
    (headLastCallRef s) (tailLastCallRef s) (trace s).

Definition set_viewportRef (v : option Viewport) (s : State) : State :=
  mkState (props s) (directionMemo s) v (action s)
    (scrollWidthRef s) (scrollHeightRef s) (scrollLeftRef s) (scrollTopRef s)
    (headLastCallRef s) (tailLastCallRef s) (trace s).

Definition set_props (p : Props) (s : State) : State :=
  mkState p (directionMemo s) (viewportRef s) (action s)
    (scrollWidthRef s) (scrollHeightRef s) (scrollLeftRef s) (scrollTopRef s)
    (headLastCallRef s) (tailLastCallRef s) (trace s).

Definition set_heightRefs (h t : Z) (s : State) : State :=
  mkState (props s) (directionMemo s) (viewportRef s) (action s)
    (scrollWidthRef s) h (scrollLeftRef s) t
    (headLastCallRef s) (tailLastCallRef s) (trace s).

Definition set_widthRefs (w l : Z) (s : State) : State :=
  mkState (props s) (directionMemo s) (viewportRef s) (action s)
    w (scrollHeightRef s) l (scrollTopRef s)
    (headLastCallRef s) (tailLastCallRef s) (trace s).

Definition set_headLastCallRef (x : Z) (s : State) : State :=
  mkState (props s) (directionMemo s) (viewportRef s) (action s)
    (scrollWidthRef s) (scrollHeightRef s) (scrollLeftRef s) (scrollTopRef s)
    x (tailLastCallRef s) (trace s).

Definition set_tailLastCallRef (x : Z) (s : State) : State :=
  mkState (props s) (directionMemo s) (viewportRef s) (action s)
    (scrollWidthRef s) (scrollHeightRef s) (scrollLeftRef s) (scrollTopRef s)
    (headLastCallRef s) x (trace s).

Definition emit (e : Effect) (s : State) : State :=
  mkState (props s) (directionMemo s) (viewportRef s) (action s)
    (scrollWidthRef s) (scrollHeightRef s) (scrollLeftRef s) (scrollTopRef s)
    (headLastCallRef s) (tailLastCallRef s) (trace s ++ [e]).

(** [!disableLog] *)
Definition logging (p : Props) : bool :=
  match disableLog p with
  | Some true => false
  | _ => true
  end.

Definition same_flag (a b : option bool) : bool :=
  match a, b with
  | None, None => true
  | Some x, Some y => Bool.eqb x y
  | _, _ => false
  end.

(** [String.prototype.includes] *)
Fixpoint includes (needle s : string) : bool :=
  String.prefix needle s ||
  match s with
  | EmptyString => false
  | String _ s' => includes needle s'
  end.

(** [const isColumn = directionMemo.includes('column')] *)
Definition isColumn (s : State) : bool := includes "column" (directionMemo s).

(** An assignment to [viewportRef.current.scrollLeft]: the property is
    set and the write is traced. *)
Definition write_scrollLeft (x : Z) (v : Viewport) (s : State) : State :=
  emit (WriteScrollLeft x) (set_viewportRef (Some (set_scrollLeft x v)) s).

Definition write_scrollTop (x : Z) (v : Viewport) (s : State) : State :=
  emit (WriteScrollTop x) (set_viewportRef (Some (set_scrollTop x v)) s).

(** [saveScrollStates(pending)] *)
Definition saveScrollStates (pending : Action) (s : State) : State :=
  match viewportRef s with
  | Some v =>
      let s1 :=
        if isColumn s
        then set_heightRefs (scrollHeight v) (scrollTop v) s
        else set_widthRefs (scrollWidth v) (scrollLeft v) s in
      setAction (Some pending) s1
  | None => s
  end.

(** The layout effect that runs when [children] changed. *)
Definition layoutEffect (s : State) : State :=
  match viewportRef s, action s with
  | Some v, Some a =>
      let isHead := Action_eqb a head in
      let diff :=
        if isColumn s
        then scrollHeight v - scrollHeightRef s
        else scrollWidth v - scrollWidthRef s in
      let s1 :=
        if String.eqb (directionMemo s) "row" then
          if isHead
          then write_scrollLeft (scrollLeftRef s + diff) v s
          else write_scrollLeft (scrollLeftRef s) v s
        else if String.eqb (directionMemo s) "row-reverse" then
          if isHead
          then write_scrollLeft (scrollLeftRef s) v s
          else write_scrollLeft (scrollLeftRef s + diff) v s
        else if String.eqb (directionMemo s) "column" then
          if isHead
          then write_scrollTop (scrollTopRef s + diff) v s
          else write_scrollTop (scrollTopRef s) v s
        else if String.eqb (directionMemo s) "column-reverse" then
          if isHead
          then write_scrollTop (scrollTopRef s) v s
          else write_scrollTop (scrollTopRef s + diff) v s
        else
          if logging (props s) then emit ConsoleError s else s in
      setAction None s1
  | _, _ => s
  end.

(** The callback wrapped by [onHeadThrottled]. *)
Definition onHeadCallback (_ : unit) (s : State) : value * State :=
  if negb (hasMoreAtHead (props s)) then (VUndefined, s)
  else
    let s1 := saveScrollStates head s in
    let s2 := if onHead (props s) then emit CallOnHead s1 else s1 in
    (VUndefined, s2).

(** The callback wrapped by [onTailThrottled]. *)
Definition onTailCallback (_ : unit) (s : State) : value * State :=
  if negb (hasMoreAtTail (props s)) then (VUndefined, s)
  else
    let s1 := saveScrollStates tail s in
    let s2 := if onTail (props s) then emit CallOnTail s1 else s1 in
    (VUndefined, s2).

(** [onHeadThrottled], called when [Date.now()] is [now]: the gate's
    [lastCallRef] is a field of the component's state. *)
Definition onHeadThrottled (now : Z) (s : State) : value * State :=
  Throttle.useThrottle headLastCallRef set_headLastCallRef
    onHeadCallback (throttleDelay (props s)) now tt s.

(** [onTailThrottled]: a second gate, with a ref of its own. *)
Definition onTailThrottled (now : Z) (s : State) : value * State :=
  Throttle.useThrottle tailLastCallRef set_tailLastCallRef
    onTailCallback (throttleDelay (props s)) now tt s.

(** The effect on [direction], which runs when one of its dependencies
    [direction], [directionMemo], [disableLog] changed. *)
Definition directionEffect (s : State) : State :=
  if negb (String.eqb (direction (props s)) (directionMemo s)) && logging (props s)
  then emit (ConsoleWarn (direction (props s)) (directionMemo s)) s
  else s.

(** A render with the props [p]: [directionMemo] has no dependency and is
    kept; the effect on [direction] runs if a dependency changed. *)
Definition render (p : Props) (s : State) : State :=
  let changed :=
    negb (String.eqb (direction p) (direction (props s))) ||
    negb (same_flag (disableLog p) (disableLog (props s))) in
  let s1 := set_props p s in
  if changed then directionEffect s1 else s1.

(** The first render and its commit: [directionMemo] takes the value of
    [direction], the viewport [div] is attached to [viewportRef], the
    layout effect and the effect on [direction] run once. *)
Definition mount (p : Props) (v : Viewport) : State :=
  directionEffect
    (layoutEffect
       (mkState p (direction p) (Some v) None 0 0 0 0
          Throttle.initial_lastCall Throttle.initial_lastCall [])).

(** What can happen to a mounted component. *)
Inductive Event : Type :=
| EdgeFire (edge : Action) (now : Z)   (* an observer calls its handler *)
| Settle                               (* [children] changed: layout effect *)
| Render (p : Props)                   (* a render with new props *)
| Layout (v : Viewport)                (* the browser lays out or scrolls *)
| Detach.                              (* the viewport [div] is removed *)

Definition step (s : State) (ev : Event) : State :=
  match ev with
  | EdgeFire head now => snd (onHeadThrottled now s)
  | EdgeFire tail now => snd (onTailThrottled now s)
  | Settle => layoutEffect s
  | Render p => render p s
  | Layout v =>
      match viewportRef s with
      | Some _ => set_viewportRef (Some v) s
      | None => s
      end
  | Detach => set_viewportRef None s
  end.

Definition run (s : State) (evs : list Event) : State := fold_left step evs s.

(** *** Vocabulary of the specification

    The notions below are those of the specification, stated over the
    state above; the theorems relate them to what the code does. *)

(** The four values of [FlexDirection]. *)
Definition recognized (d : string) : Prop :=
  d = "row" \/ d = "row-reverse" \/ d = "column" \/ d = "column-reverse".

Definition forward (d : string) : Prop := d = "row" \/ d = "column".
Definition reverse (d : string) : Prop := d = "row-reverse" \/ d = "column-reverse".

(** The main axis is the horizontal one for [row] and [row-reverse]. *)
Definition horizontal (d : string) : bool :=
  String.eqb d "row" || String.eqb d "row-reverse".

Definition main_extent (d : string) (v : Viewport) : Z :=
  if horizontal d then scrollWidth v else scrollHeight v.

Definition main_offset (d : string) (v : Viewport) : Z :=
  if horizontal d then scrollLeft v else scrollTop v.

Definition cross_offset (d : string) (v : Viewport) : Z :=
  if horizontal d then scrollTop v else scrollLeft v.

Definition main_write (d : string) (x : Z) : Effect :=
  if horizontal d then WriteScrollLeft x else WriteScrollTop x.

(** The metrics recorded for the main axis. *)
Definition recorded_extent (d : string) (s : State) : Z :=
  if horizontal d then scrollWidthRef s else scrollHeightRef s.

Definition recorded_offset (d : string) (s : State) : Z :=
  if horizontal d then scrollLeftRef s else scrollTopRef s.

(** The props and the gate of one edge. *)
Definition hasMore (e : Action) (p : Props) : bool :=
  match e with head => hasMoreAtHead p | tail => hasMoreAtTail p end.

Definition supplied (e : Action) (p : Props) : bool :=
  match e with head => onHead p | tail => onTail p end.

Definition Call (e : Action) : Effect :=
  match e with head => CallOnHead | tail => CallOnTail end.

Definition lastCallRef_of (e : Action) (s : State) : Z :=
  match e with head => headLastCallRef s | tail => tailLastCallRef s end.

Definition set_lastCallRef_of (e : Action) (x : Z) (s : State) : State :=
  match e with head => set_headLastCallRef x s | tail => set_tailLastCallRef x s end.

(** The callback that the gate of an edge wraps. *)
Definition wrapped (e : Action) : unit -> State -> value * State :=
  match e with head => onHeadCallback | tail => onTailCallback end.

(** The handler of an edge, as [step] calls it. *)
Definition throttled (e : Action) (now : Z) (s : State) : value * State :=
  match e with head => onHeadThrottled now s | tail => onTailThrottled now s end.

(** An edge-fire at [now] passes the throttle gate of its edge. *)
Definition gate_open (e : Action) (now : Z) (s : State) : bool :=
  Throttle.passes (Throttle.delay_of (throttleDelay (props s))) now (lastCallRef_of e s).

(** A qualifying edge-fire: it passes the gate and its flag is true. *)
Definition qualifies (s : State) (ev : Event) : Prop :=
  exists e now, ev = EdgeFire e now /\
    gate_open e now s = true /\ hasMore e (props s) = true.

(** No event of a run qualifies in the state it arrives in. *)
Fixpoint unqualified (s : State) (evs : list Event) : Prop :=
  match evs with
  | [] => True
  | ev :: evs' => ~ qualifies s ev /\ unqualified (step s ev) evs'
  end.

(** Renders and layouts: the events that neither fire an edge, nor
    settle, nor detach the viewport. *)
Definition quiet (ev : Event) : Prop :=
  match ev with
  | Render _ | Layout _ => True
  | _ => False
  end.

(** Two states hold the same pending edge, memoized direction and
    recorded metrics. *)
Definition same_record (s s' : State) : Prop :=
  action s' = action s /\ directionMemo s' = directionMemo s /\
  scrollWidthRef s' = scrollWidthRef s /\ scrollHeightRef s' = scrollHeightRef s /\
  scrollLeftRef s' = scrollLeftRef s /\ scrollTopRef s' = scrollTopRef s.

(** The warning about a changed [direction] prop is in the trace
    whenever the prop differs from the memoized direction and logging is
    on. *)
Definition warned (s : State) : Prop :=
  direction (props s) <> directionMemo s -> logging (props s) = true ->
  In (ConsoleWarn (direction (props s)) (directionMemo s)) (trace s).

(** The same state, rendered with another [direction] prop. *)
Definition with_direction (d : string) (s : State) : State :=
  set_props
    (mkProps d (hasMoreAtHead (props s)) (hasMoreAtTail (props s))
       (throttleDelay (props s)) (disableLog (props s))
       (onHead (props s)) (onTail (props s))) s.

(** *** The observers

    [Observer] hands the notifications of its [IntersectionObserver] to
    [onIntersect] when [entries[0].intersectionRatio > 0].  An entry is
    modelled by its ratio; reading [entries[0]] of an empty array raises
    a [TypeError], which is [None] here. *)
Definition Observer_callback (entries : list Q) (onIntersect : State -> State)
    (s : State) : option State :=
  match entries with
  | [] => None
  | ratio :: _ => Some (if negb (Qle_bool ratio 0) then onIntersect s else s)
  end.

(** The observer of an edge is rendered unless that edge is pending, in
    which case the loader takes its place. *)
Definition observer_rendered (e : Action) (s : State) : bool :=
  match action s with
  | Some a => negb (Action_eqb a e)
  | None => true
  end.

(** A notification delivered at [now] to the observer of the edge [e],
    wired to the throttled handler of that edge. *)
Definition notify (e : Action) (entries : list Q) (now : Z) (s : State) : option State :=
  Observer_callback entries (fun s => snd (throttled e now s)) s.

(** *** Counting *)

Definition is_write (e : Effect) : bool :=
  match e with
  | WriteScrollLeft _ | WriteScrollTop _ => true
  | _ => false
  end.

Definition is_call (e : Effect) : bool :=
  match e with
  | CallOnHead | CallOnTail => true
  | _ => false
  end.

Definition is_call_of (e : Action) (eff : Effect) : bool :=
  match e, eff with
  | head, CallOnHead | tail, CallOnTail => true
  | _, _ => false
  end.

Definition is_fire (ev : Event) : bool :=
  match ev with EdgeFire _ _ => true | _ => false end.

Definition is_settle (ev : Event) : bool :=
  match ev with Settle => true | _ => false end.

Definition count {T : Type} (f : T -> bool) (l : list T) : nat :=
  List.length (filter f l).

Definition pending_count (s : State) : nat :=
  match action s with Some _ => 1%nat | None => 0%nat end.

(** The write that is never made under a direction: the cross axis. *)
Definition is_cross_write (d : string) (e : Effect) : bool :=
  match e with
  | WriteScrollLeft _ => negb (horizontal d)
  | WriteScrollTop _ => horizontal d
  | _ => false
  end.

Definition cross_recorded_extent (d : string) (s : State) : Z :=
  if horizontal d then scrollHeightRef s else scrollWidthRef s.

Definition cross_recorded_offset (d : string) (s : State) : Z :=
  if horizontal d then scrollTopRef s else scrollLeftRef s.

End BidirectionalList.

(** ** utils/random

    [Math.random()] is the host's.  Both functions use it through
    [Math.floor(Math.random() * range)] only, so the host is a family
    [pick]: [pick n range] is the value of that expression at the [n]-th
    call of [Math.random()], for an integral [range].  The functions
    thread the number of calls made so far. *)

Module Random.

(** A JavaScript number: an integer, or [NaN]. *)
Inductive number : Type :=
| Num (z : Z)
| NaN.

(** The result of a call that may throw. *)
Inductive thrown (T : Type) : Type :=
| Ok (x : T)
| Throw (message : string).
Arguments Ok {T} x.
Arguments Throw {T} message.

(** [n.toString(16)] of a digit. *)
Definition hex_digit (d : Z) : ascii :=
  match d with
  | 0 => "0" | 1 => "1" | 2 => "2" | 3 => "3" | 4 => "4"
  | 5 => "5" | 6 => "6" | 7 => "7" | 8 => "8" | 9 => "9"
  | 10 => "a" | 11 => "b" | 12 => "c" | 13 => "d" | 14 => "e"
  | _ => "f"
  end%char.

Fixpoint digits16 (fuel : nat) (n : Z) (acc : string) : string :=
  let acc' := String (hex_digit (n mod 16)) acc in
  match fuel with
  | O => acc'
  | S fuel' => if n / 16 =? 0 then acc' else digits16 fuel' (n / 16) acc'
  end.

(** [n.toString(16)] *)
Definition toString16 (n : number) : string :=
  match n with
  | NaN => "NaN"
  | Num z =>
      if z <? 0
      then String "-"%char (digits16 (Z.to_nat (Z.log2 (- z))) (- z) "")
      else digits16 (Z.to_nat (Z.log2 z)) z ""
  end.

Fixpoint repeat_char (c : ascii) (n : nat) : string :=
  match n with
  | O => ""
  | S n' => String c (repeat_char c n')
  end.

(** [s.padStart(len, c)] for a one-character filler. *)
Definition padStart (len : nat) (c : ascii) (s : string) : string :=
  repeat_char c (len - String.length s) ++ s.

(** [const hex = (n) => n.toString(16).padStart(2, '0')] *)
Definition hex (n : number) : string := padStart 2 "0"%char (toString16 n).

(** [Number.MIN_SAFE_INTEGER <= z <= Number.MAX_SAFE_INTEGER]: the
    integers that a double holds exactly, together with their
    neighbours. *)
Definition safe_integer (z : Z) : Prop :=
  - (2 ^ 53 - 1) <= z <= 2 ^ 53 - 1.

Section Draws.
Variable pick : nat -> Z -> Z.

(** [randInt(...args)], when [calls] calls of [Math.random()] were made
    before.  A [stride] of 0 makes [range] infinite or [NaN], and the sum
    [NaN].  The arithmetic is that of the integers: it is the
    arithmetic of the source on arguments that are [safe_integer]s and
    whose difference is one, where every intermediate value is an
    integer that a double holds exactly; the properties of [randInt]
    are stated under that condition. *)
Definition randInt (args : list Z) (calls : nat) : thrown number * nat :=
  let bounds :=
    match args with
    | [a0] => Some (0, a0, 1)
    | [a0; a1] => Some (a0, a1, 1)
    | [a0; a1; a2] => Some (a0, a1, a2)
    | _ => None
    end in
  match bounds with
  | None => (Throw "Invalid number of arguments", calls)
  | Some (min, max, stride) =>
      if stride =? 0 then (Ok NaN, S calls)
      else
        let range := (max - min) / stride in
        (Ok (Num (min + stride * pick calls range)), S calls)
  end.

(** [randHexColor()] *)
Definition randHexColor (calls : nat) : thrown string * nat :=
  match randInt [255] calls with
  | (Throw m, c) => (Throw m, c)
  | (Ok r, c1) =>
      match randInt [255] c1 with
      | (Throw m, c) => (Throw m, c)
      | (Ok g, c2) =>
          match randInt [255] c2 with
          | (Throw m, c) => (Throw m, c)
          | (Ok b, c3) => (Ok ("#" ++ hex r ++ hex g ++ hex b)%string, c3)
          end
      end
  end.
End Draws.

(** Reading a colour back: the value of a hexadecimal digit, of two
    digits, and the three channels of [#rrggbb]. *)
Definition digit_value (c : ascii) : option Z :=
  let n := Z.of_nat (nat_of_ascii c) in
  if (48 <=? n) && (n <=? 57) then Some (n - 48)
  else if (97 <=? n) && (n <=? 102) then Some (n - 87)
  else None.

Definition parse_hex2 (s : string) : option Z :=
  match s with
  | String h (String l EmptyString) =>
      match digit_value h, digit_value l with
      | Some x, Some y => Some (16 * x + y)
      | _, _ => None
      end
  | _ => None
  end.

Definition parse_color (s : string) : option (Z * Z * Z) :=
  match s with
  | String "#" (String r1 (String r2 (String g1 (String g2
      (String b1 (String b2 EmptyString)))))) =>
      match parse_hex2 (String r1 (String r2 EmptyString)),
            parse_hex2 (String g1 (String g2 EmptyString)),
            parse_hex2 (String b1 (String b2 EmptyString)) with
      | Some r, Some g, Some b => Some (r, g, b)
      | _, _, _ => None
      end
  | _ => None
  end.

(** What is known of the host: for a positive [range], the [n]-th draw
    lies in [0, range). *)
Definition fair (pick : nat -> Z -> Z) (n : nat) (range : Z) : Prop :=
  0 <= pick n range < range.

End Random.

(** ** TestList *)

Module TestList.
Import Random.

Record TestData : Type := mkTestData {
  id : Z;
  size : string;
  color : string
}.

(** An optional prop is [None] when it is [undefined]. *)
Record TestListProps : Type := mkTestListProps {
  direction : string;
  batchSize : option Z;
  idMin : option Z;
  idMax : option Z
}.

(** The default value of [batchSize]. *)
Definition batchSize_of (p : TestListProps) : Z :=
  match batchSize p with
  | Some b => b
  | None => 10
  end.

(** The truth value of an optional number, as in [idMin ? ... : ...]. *)
Definition truthy (x : option Z) : bool :=
  match x with
  | Some z => negb (z =? 0)
  | None => false
  end.

Definition isRow (p : TestListProps) : bool :=
  BidirectionalList.includes "row" (direction p).

Definition listItemMainSize (p : TestListProps) : string :=
  if isRow p then "25vw" else "25vh".

(** [data.at(0)?.id ?? 0] and [data.at(-1)?.id ?? 0] *)
Definition min (data : list TestData) : Z :=
  match data with
  | d :: _ => id d
  | [] => 0
  end.

Definition max (data : list TestData) : Z :=
  match rev data with
  | d :: _ => id d
  | [] => 0
  end.

(** The state of [useState] on first render. *)
Definition initial_data (p : TestListProps) : list TestData :=
  [mkTestData 0 (listItemMainSize p) "#f8f8f8"].

Section Draws.
Variable pick : nat -> Z -> Z.

(** [Array.from({ length: count }, (_, k) => item k)], from the index
    [k] on: the items are made in order, each with a colour of its own.
    A throw of [randHexColor] leaves the array unmade. *)
Fixpoint make_items (count : nat) (k : Z) (id_of : Z -> Z) (sz : string)
    (calls : nat) : thrown (list TestData) * nat :=
  match count with
  | O => (Ok [], calls)
  | S count' =>
      match randHexColor pick calls with
      | (Throw m, c) => (Throw m, c)
      | (Ok col, c1) =>
          match make_items count' (k + 1) id_of sz c1 with
          | (Throw m, c) => (Throw m, c)
          | (Ok items, c2) => (Ok (mkTestData (id_of k) sz col :: items), c2)
          end
      end
  end.

(** The [count] of [unshiftData]. *)
Definition unshift_count (p : TestListProps) (data : list TestData) : Z :=
  if truthy (idMin p)
  then Z.max (Z.min (min data - match idMin p with Some m => m | None => 0 end) 0)
             (batchSize_of p)
  else batchSize_of p.

(** The [count] of [pushData]. *)
Definition push_count (p : TestListProps) (data : list TestData) : Z :=
  if truthy (idMax p)
  then Z.max (Z.min (max data - match idMax p with Some m => m | None => 0 end) 0)
             (batchSize_of p)
  else batchSize_of p.

(** [unshiftData()], called from the render whose data are the current
    state: [data] is both the data the callback closes over and the
    [prevData] its updater receives ([unshiftData_on] is the general
    case).  The length of the array is [ToLength(count)], 0 for a
    negative count. *)
Definition unshiftData (p : TestListProps) (data : list TestData) (calls : nat)
    : thrown (list TestData) * nat :=
  let count := unshift_count p data in
  if count =? 0 then (Ok data, calls)
  else
    match make_items (Z.to_nat count) 0 (fun k => min data - count + k)
            (listItemMainSize p) calls with
    | (Throw m, c) => (Throw m, c)
    | (Ok newData, c) => (Ok (newData ++ data), c)
    end.

(** [pushData()], called from the render whose data are the current
    state ([pushData_on] is the general case). *)
Definition pushData (p : TestListProps) (data : list TestData) (calls : nat)
    : thrown (list TestData) * nat :=
  let count := push_count p data in
  if count =? 0 then (Ok data, calls)
  else
    match make_items (Z.to_nat count) 0 (fun k => max data + 1 + k)
            (listItemMainSize p) calls with
    | (Throw m, c) => (Throw m, c)
    | (Ok newData, c) => (Ok (data ++ newData), c)
    end.

(** The two loads, each with the props of the render it runs in. *)
Inductive Load : Type :=
| Unshift (p : TestListProps)
| Push (p : TestListProps).

Definition load (l : Load) (data : list TestData) (calls : nat)
    : thrown (list TestData) * nat :=
  match l with
  | Unshift p => unshiftData p data calls
  | Push p => pushData p data calls
  end.

(** A sequence of loads with a render between any two of them, so that
    each load closes over the data the loads before it left; a throw
    leaves the data as they were.  ([list_run] is the general case.) *)
Fixpoint loads (ls : list Load) (data : list TestData) (calls : nat)
    : list TestData * nat :=
  match ls with
  | [] => (data, calls)
  | l :: ls' =>
      match load l data calls with
      | (Ok data', c) => loads ls' data' c
      | (Throw _, c) => loads ls' data c
      end
  end.
(** [unshiftData()] as the callback of one render, run when the state
    may have moved on: [count] and the ids come from [rendered], the
    data that the callback closes over (its [min]), and the updater puts
    the new items in front of [prev], the state at the time it runs.
    With [count === 0] the callback returns before [setData]. *)
Definition unshiftData_on (p : TestListProps) (rendered prev : list TestData)
    (calls : nat) : thrown (list TestData) * nat :=
  let count := unshift_count p rendered in
  if count =? 0 then (Ok prev, calls)
  else
    match make_items (Z.to_nat count) 0 (fun k => min rendered - count + k)
            (listItemMainSize p) calls with
    | (Throw m, c) => (Throw m, c)
    | (Ok newData, c) => (Ok (newData ++ prev), c)
    end.

(** [pushData()] as the callback of one render. *)
Definition pushData_on (p : TestListProps) (rendered prev : list TestData)
    (calls : nat) : thrown (list TestData) * nat :=
  let count := push_count p rendered in
  if count =? 0 then (Ok prev, calls)
  else
    match make_items (Z.to_nat count) 0 (fun k => max rendered + 1 + k)
            (listItemMainSize p) calls with
    | (Throw m, c) => (Throw m, c)
    | (Ok newData, c) => (Ok (prev ++ newData), c)
    end.

Definition load_on (l : Load) (rendered prev : list TestData) (calls : nat)
    : thrown (list TestData) * nat :=
  match l with
  | Unshift p => unshiftData_on p rendered prev calls
  | Push p => pushData_on p rendered prev calls
  end.

(** The list between two renders: the data of the last render, which
    the callbacks close over, the state of [useState], and the number of
    calls of [Math.random()] made. *)
Record ListState : Type := mkListState {
  rendered : list TestData;
  current : list TestData;
  draws : nat
}.

(** A render that commits the state, or a call of one of the two
    callbacks of the last render. *)
Inductive ListEvent : Type :=
| Commit
| Invoke (l : Load).

Definition list_step (st : ListState) (ev : ListEvent) : ListState :=
  match ev with
  | Commit => mkListState (current st) (current st) (draws st)
  | Invoke l =>
      match load_on l (rendered st) (current st) (draws st) with
      | (Ok data', c) => mkListState (rendered st) data' c
      | (Throw _, c) => mkListState (rendered st) (current st) c
      end
  end.

Definition list_run (st : ListState) (evs : list ListEvent) : ListState :=
  fold_left list_step evs st.
End Draws.

(** A render comes between any two calls: [stale] says whether a call
    was made since the last render. *)
Fixpoint committed (stale : bool) (evs : list ListEvent) : Prop :=
  match evs with
  | [] => True
  | Commit :: evs' => committed false evs'
  | Invoke _ :: evs' => stale = false /\ committed true evs'
  end.

(** The list as [TestList] mounts it. *)
Definition initial_list (p : TestListProps) (calls : nat) : ListState :=
  mkListState (initial_data p) (initial_data p) calls.

(** The props that [TestList] hands to [BidirectionalList]. *)
Definition hasMoreAtHead (p : TestListProps) (data : list TestData) : bool :=
  if truthy (idMax p)
  then max data <? match idMax p with Some m => m | None => 0 end
  else true.

Definition hasMoreAtTail (p : TestListProps) (data : list TestData) : bool :=
  if truthy (idMin p)
  then min data <? match idMin p with Some m => m | None => 0 end
  else true.

Definition list_props (p : TestListProps) (data : list TestData)
    : BidirectionalList.Props :=
  BidirectionalList.mkProps (direction p)
    (hasMoreAtHead p data) (hasMoreAtTail p data) None None true true.

(** The ids of a list go up by one from item to item. *)
Fixpoint consecutive (ids : list Z) : Prop :=
  match ids with
  | a :: (b :: _) as ids' => b = a + 1 /\ consecutive ids'
  | _ => True
  end.

(** The integers [a, a + 1, ..., a + n - 1]. *)
Fixpoint upto (a : Z) (n : nat) : list Z :=
  match n with
  | O => []
  | S n' => a :: upto (a + 1) n'
  end.

(** The data are not empty, their ids are the integers from the first
    id on, and the item of id 0 is among them. *)
Definition well_numbered (data : list TestData) : Prop :=
  data <> [] /\
  map id data = upto (min data) (List.length data) /\
  min data <= 0 <= max data.

End TestList.

(** * Properties of the throttle gate *)

Module ThrottleSpec.
Import Throttle.

Section AnyGate.
Context {A St : Type}.
Variable getRef : St -> Z.
Variable setRef : Z -> St -> St.
Variable callback : A -> St -> value * St.

Lemma useThrottle_suppressed delay now args st :
  passes (delay_of delay) now (getRef st) = false ->
  useThrottle getRef setRef callback delay now args st = (VUndefined, st).
Proof. unfold useThrottle; intros ->; reflexivity. Qed.

Lemma useThrottle_forwarded delay now args st :
  passes (delay_of delay) now (getRef st) = true ->
  useThrottle getRef setRef callback delay now args st =
  callback args (setRef now st).
Proof. unfold useThrottle; intros ->; reflexivity. Qed.
End AnyGate.

Lemma passes_spec delay now lastCall :
  passes delay now lastCall = true <-> delay <= now - lastCall.
Proof. unfold passes; rewrite Z.geb_le; reflexivity. Qed.

Lemma passes_false delay now lastCall :
  passes delay now lastCall = false <-> now - lastCall < delay.
Proof.
  unfold passes; destruct (Z.geb_spec (now - lastCall) delay); split;
    intros; try discriminate; try lia; reflexivity.
Qed.

(** *** One attempt on the noting gate *)

Lemma attempt_eq delay t g :
  attempt delay t g =
  if passes delay t (lastCallRef g) then mkGate t (calls g ++ [t]) else g.
Proof.
  unfold attempt, useThrottle; simpl.
  destruct (passes delay t (lastCallRef g)); reflexivity.
Qed.

Lemma reached_eq delay t g : reached delay t g = passes delay t (lastCallRef g).
Proof.
  unfold reached; rewrite attempt_eq.
  destruct (passes delay t (lastCallRef g)); simpl.
  - rewrite length_app; simpl.
    destruct (Nat.eqb_spec (List.length (calls g) + 1) (List.length (calls g)));
      [lia | reflexivity].
  - rewrite Nat.eqb_refl; reflexivity.
Qed.

Lemma attempt_lastCallRef delay t g :
  lastCallRef (attempt delay t g) =
  if reached delay t g then t else lastCallRef g.
Proof.
  rewrite reached_eq, attempt_eq.
  destruct (passes delay t (lastCallRef g)); reflexivity.
Qed.

(** *** A sequence of attempts *)

Lemma forwarded_length delay ts : forall g,
  List.length (forwarded delay g ts) = List.length ts.
Proof. induction ts as [|t ts IH]; intros g; simpl; [|rewrite IH]; reflexivity. Qed.

(** Each flag is the test of line 18 against the timestamp of the last
    forwarded attempt before it, or against the initial content of the
    ref when there is none. *)
Lemma forwarded_nth delay ts : forall g i,
  (i < List.length ts)%nat ->
  nth i (forwarded delay g ts) false =
  passes delay (nth i ts 0)
    (last_forwarded (lastCallRef g) (fun t => t) (forwarded delay g ts) ts i).
Proof.
  induction ts as [|t ts IH]; intros g i Hi; simpl in Hi; [lia|].
  destruct i as [|i]; simpl.
  - apply reached_eq.
  - rewrite IH by lia. rewrite attempt_lastCallRef. reflexivity.
Qed.

Lemma last_forwarded_Some flags : forall ts i l,
  last_forwarded (Some l) Some flags ts i =
  Some (last_forwarded l (fun t => t) flags ts i).
Proof.
  induction flags as [|f flags IH]; intros ts i l.
  - destruct i; reflexivity.
  - destruct i as [|i]; [reflexivity|].
    destruct ts as [|t ts]; [reflexivity|]. simpl.
    destruct f; apply IH.
Qed.

(** C2, as the claim words it, fails: a gate starts with [lastCallRef] at
    0, so a first attempt at a time smaller than the cooldown is
    suppressed.  Here the cooldown is 2 * 10^12 ms and the attempts are
    at 1.7 * 10^12 ms and half a second later. *)
Lemma first_attempt_not_always_forwarded :
  forwarded 2000000000000 fresh [1700000000000; 1700000000500] = [false; false] /\
  ~ spec_forwarded 2000000000000 [1700000000000; 1700000000500]
      (forwarded 2000000000000 fresh [1700000000000; 1700000000500]).
Proof.
  split; [reflexivity|].
  intros [_ H]. specialize (H 0%nat). simpl in H.
  assert (Hlt : (0 < 2)%nat) by lia. specialize (H Hlt).
  vm_compute in H. discriminate.
Qed.

(** C2 (amended): for every cooldown and every sequence of attempts on a
    fresh gate, the attempt at [ti] is forwarded iff [ti] minus the
    timestamp of the last forwarded attempt is at least the cooldown,
    where that timestamp is 0 as long as no attempt was forwarded; so the
    first attempt is forwarded iff its timestamp is at least the cooldown,
    and when it is, the sequence is forwarded exactly as the
    specification says. *)
Theorem throttle_forwards_iff_cooldown_elapsed (delay : Z) (ts : list Z) :
  List.length (forwarded delay fresh ts) = List.length ts /\
  (forall i, (i < List.length ts)%nat ->
     (nth i (forwarded delay fresh ts) false = true <->
      delay <= nth i ts 0 -
               last_forwarded 0 (fun t => t) (forwarded delay fresh ts) ts i)) /\
  (forall t ts', ts = t :: ts' ->
     (nth 0 (forwarded delay fresh ts) false = true <-> delay <= t)) /\
  (forall t ts', ts = t :: ts' -> delay <= t ->
     spec_forwarded delay ts (forwarded delay fresh ts)).
Proof.
  split; [apply forwarded_length|].
  split.
  { intros i Hi. rewrite forwarded_nth by exact Hi. rewrite passes_spec.
    reflexivity. }
  split.
  { intros t ts' ->. simpl. rewrite reached_eq, passes_spec. simpl.
    unfold initial_lastCall. rewrite Z.sub_0_r. reflexivity. }
  intros t ts' -> Hd. split; [apply forwarded_length|].
  intros i Hi.
  assert (H0 : reached delay t fresh = true).
  { rewrite reached_eq, passes_spec. simpl. unfold initial_lastCall. lia. }
  destruct i as [|i].
  - simpl. exact H0.
  - rewrite forwarded_nth by exact Hi.
    simpl. rewrite H0. rewrite last_forwarded_Some. reflexivity.
Qed.

Lemma throttle_forwards_iff_cooldown_elapsed_witness :
  let ts := [1700000000000; 1700000000400; 1700000001000] in
  forwarded 1000 fresh ts = [true; false; true] /\
  (nth 1 (forwarded 1000 fresh ts) false = true <->
   1000 <= 1700000000400 -
           last_forwarded 0 (fun t => t) (forwarded 1000 fresh ts) ts 1) /\
  (nth 0 (forwarded 1000 fresh ts) false = true <-> 1000 <= 1700000000000) /\
  spec_forwarded 1000 ts (forwarded 1000 fresh ts).
Proof.
  split; [reflexivity|].
  destruct (throttle_forwards_iff_cooldown_elapsed 1000
              [1700000000000; 1700000000400; 1700000001000])
    as (_ & Hi & H0 & Hs).
  split; [apply (Hi 1%nat); simpl; lia|].
  split; [apply (H0 1700000000000 [1700000000400; 1700000001000]); reflexivity|].
  apply (Hs 1700000000000 [1700000000400; 1700000001000]); [reflexivity|lia].
Defined.

(** End-to-end scenario 3 of the specification: two attempts 400 ms
    apart under a cooldown of 1000 ms reach the callback once. *)
Example two_attempts_400ms_apart :
  calls (attempt 1000 1700000000400 (attempt 1000 1700000000000 fresh)) =
  [1700000000000].
Proof. reflexivity. Qed.

(** C7, as the claim words it, fails: for a callback that returns nothing
    the result of a suppressed attempt and the result of a forwarded one
    are the same value, [undefined].  Here the gate last forwarded at
    1.7 * 10^12 ms, the cooldown is 1000 ms, and the attempts are 400 ms
    and 1000 ms later. *)
Lemma suppressed_is_not_distinct_from_void :
  ~ (forall (callback : Z -> Gate -> value * Gate) (delay now now' : Z) (g : Gate),
       passes delay now (lastCallRef g) = false ->
       passes delay now' (lastCallRef g) = true ->
       fst (useThrottle lastCallRef set_lastCallRef callback (Some delay) now now g) <>
       fst (useThrottle lastCallRef set_lastCallRef callback (Some delay) now' now' g)).
Proof.
  intros H.
  apply (H note_call 1000 1700000000400 1700000001000
           (mkGate 1700000000000 [1700000000000])); reflexivity.
Qed.

Section Suppressed.
Context {A St : Type}.
Variable getRef : St -> Z.
Variable setRef : Z -> St -> St.
Variable callback : A -> St -> value * St.

(** C7 (amended): an attempt inside the cooldown window performs no call
    and leaves the ref as it was, and its result is [undefined], a
    member of the declared result type [R | undefined]; a forwarded
    attempt returns what the callback returns.  So a caller tells a
    suppressed attempt from a forwarded one by the result exactly when
    the callback never returns [undefined]. *)
Theorem suppressed_attempt_returns_undefined
    (delay : option Z) (now : Z) (args : A) (st : St) :
  (passes (delay_of delay) now (getRef st) = false ->
     useThrottle getRef setRef callback delay now args st = (VUndefined, st)) /\
  (passes (delay_of delay) now (getRef st) = true ->
     useThrottle getRef setRef callback delay now args st =
     callback args (setRef now st)) /\
  ((forall a s, fst (callback a s) <> VUndefined) ->
     (fst (useThrottle getRef setRef callback delay now args st) = VUndefined <->
      passes (delay_of delay) now (getRef st) = false)).
Proof.
  split; [apply useThrottle_suppressed|].
  split; [apply useThrottle_forwarded|].
  intros Hdef. unfold useThrottle.
  destruct (passes (delay_of delay) now (getRef st)); simpl.
  - split; [|discriminate]. intros H. destruct (Hdef _ _ H).
  - split; reflexivity.
Qed.
End Suppressed.

Lemma suppressed_attempt_returns_undefined_witness :
  let g := mkGate 1700000000000 [1700000000000] in
  passes (delay_of None) 1700000000400 (lastCallRef g) = false /\
  useThrottle lastCallRef set_lastCallRef count_call None
    1700000000400 1700000000400 g = (VUndefined, g) /\
  useThrottle lastCallRef set_lastCallRef count_call None
    1700000001000 1700000001000 g =
    (VNum 1, mkGate 1700000001000 [1700000000000; 1700000001000]) /\
  (fst (useThrottle lastCallRef set_lastCallRef count_call None
          1700000000400 1700000000400 g) = VUndefined <->
   passes (delay_of None) 1700000000400 (lastCallRef g) = false).
Proof.
  split; [reflexivity|]. split; [|split].
  - apply (proj1 (suppressed_attempt_returns_undefined lastCallRef set_lastCallRef
                    count_call None 1700000000400 1700000000400
                    (mkGate 1700000000000 [1700000000000]))).
    reflexivity.
  - apply (proj1 (proj2 (suppressed_attempt_returns_undefined lastCallRef
                    set_lastCallRef count_call None 1700000001000 1700000001000
                    (mkGate 1700000000000 [1700000000000])))).
    reflexivity.
  - apply (proj2 (proj2 (suppressed_attempt_returns_undefined lastCallRef
                    set_lastCallRef count_call None 1700000000400 1700000000400
                    (mkGate 1700000000000 [1700000000000])))).
    intros a st; discriminate.
Defined.

End ThrottleSpec.

(** * Properties of the list controller *)

Module ControllerSpec.
Import BidirectionalList.

Ltac by_direction H :=
  destruct H as [H | [H | [H | H]]].

Ltac break_matches :=
  repeat match goal with
         | |- context [match ?x with _ => _ end] => destruct x
         end.

Ltac crush_state s :=
  destruct s as [p dm vr ac wr hr lr tr hl tl tc]; simpl in *; subst; simpl.

(** *** The layout effect *)

Lemma layoutEffect_idle s : action s = None -> layoutEffect s = s.
Proof. unfold layoutEffect; intros ->; destruct (viewportRef s); reflexivity. Qed.

Lemma layoutEffect_detached s : viewportRef s = None -> layoutEffect s = s.
Proof. unfold layoutEffect; intros ->; reflexivity. Qed.

Lemma recognized_column d :
  recognized d -> includes "column" d = negb (horizontal d).
Proof. intros H; by_direction H; subst; reflexivity. Qed.

(** With an edge pending, a viewport attached and one of the four
    directions, the effect assigns the main-axis offset once, from the
    recorded metrics, and clears the pending edge. *)
Lemma layoutEffect_pending s v a :
  viewportRef s = Some v -> action s = Some a -> recognized (directionMemo s) ->
  let d := directionMemo s in
  let diff := main_extent d v - recorded_extent d s in
  let x :=
    if Bool.eqb (horizontal d && String.eqb d "row" || String.eqb d "column")
                (Action_eqb a head)
    then recorded_offset d s + diff else recorded_offset d s in
  layoutEffect s =
  setAction None
    (emit (main_write d x)
       (set_viewportRef
          (Some (if horizontal d then set_scrollLeft x v else set_scrollTop x v)) s)).
Proof.
  intros Hv Ha Hd. by_direction Hd; crush_state s;
    unfold layoutEffect, isColumn; simpl; destruct a; reflexivity.
Qed.

(** *** The throttled handlers *)

Lemma step_fire s e now : step s (EdgeFire e now) = snd (throttled e now s).
Proof. destruct e; reflexivity. Qed.

Lemma throttled_closed s e now :
  gate_open e now s = false -> throttled e now s = (VUndefined, s).
Proof.
  unfold gate_open; intros H; destruct e; simpl in H;
    apply ThrottleSpec.useThrottle_suppressed; exact H.
Qed.

Lemma throttled_open s e now :
  gate_open e now s = true ->
  throttled e now s =
  (VUndefined,
   if hasMore e (props s) then
     let s1 := saveScrollStates e (set_lastCallRef_of e now s) in
     if supplied e (props s) then emit (Call e) s1 else s1
   else set_lastCallRef_of e now s).
Proof.
  unfold gate_open; intros H; destruct e; simpl in H |- *.
  - unfold onHeadThrottled. rewrite ThrottleSpec.useThrottle_forwarded by exact H.
    unfold onHeadCallback; simpl. destruct (hasMoreAtHead (props s)); reflexivity.
  - unfold onTailThrottled. rewrite ThrottleSpec.useThrottle_forwarded by exact H.
    unfold onTailCallback; simpl. destruct (hasMoreAtTail (props s)); reflexivity.
Qed.

(** A qualifying edge-fire on an attached viewport records the metrics
    of the main axis and enters the pending state. *)
Lemma fire_records s e now v :
  recognized (directionMemo s) -> viewportRef s = Some v ->
  gate_open e now s = true -> hasMore e (props s) = true ->
  let s1 := step s (EdgeFire e now) in
  let d := directionMemo s in
  action s1 = Some e /\ directionMemo s1 = d /\ viewportRef s1 = Some v /\
  recorded_extent d s1 = main_extent d v /\
  recorded_offset d s1 = main_offset d v.
Proof.
  intros Hd Hv Hg Hm. cbv zeta. rewrite step_fire, throttled_open by exact Hg.
  rewrite Hm. cbn [snd].
  assert (Hs : viewportRef (set_lastCallRef_of e now s) = Some v)
    by (destruct e; exact Hv).
  unfold saveScrollStates. rewrite Hs. unfold isColumn.
  replace (directionMemo (set_lastCallRef_of e now s)) with (directionMemo s)
    by (destruct e; reflexivity).
  rewrite (recognized_column _ Hd).
  unfold recorded_extent, recorded_offset, main_extent, main_offset.
  destruct (horizontal (directionMemo s)), (supplied e (props s)), e;
    simpl; rewrite ?Hv; repeat split; reflexivity.
Qed.

(** *** Renders and layouts *)

Lemma same_record_refl s : same_record s s.
Proof. repeat split. Qed.

Lemma same_record_trans s1 s2 s3 :
  same_record s1 s2 -> same_record s2 s3 -> same_record s1 s3.
Proof.
  unfold same_record; intros (A1 & A2 & A3 & A4 & A5 & A6) (B1 & B2 & B3 & B4 & B5 & B6).
  repeat split; congruence.
Qed.

Lemma quiet_step s ev : quiet ev -> same_record s (step s ev).
Proof.
  destruct ev as [e now| |p|v|]; simpl; intros H; try contradiction.
  - unfold render, directionEffect.
    destruct (negb _ || negb _); [|repeat split].
    destruct (negb _ && _); repeat split.
  - destruct (viewportRef s); repeat split.
Qed.

Lemma quiet_run evs : forall s, Forall quiet evs -> same_record s (run s evs).
Proof.
  induction evs as [|ev evs IH]; intros s H; simpl.
  - apply same_record_refl.
  - inversion H as [|? ? Hev Hevs]; subst.
    eapply same_record_trans; [apply quiet_step, Hev | apply IH, Hevs].
Qed.

(** *** What a step keeps *)

Lemma step_directionMemo s ev : directionMemo (step s ev) = directionMemo s.
Proof.
  destruct ev as [e t| |p|v|];
    [destruct e| | | |];
    unfold step, onHeadThrottled, onTailThrottled, Throttle.useThrottle,
      onHeadCallback, onTailCallback, saveScrollStates, layoutEffect, render,
      directionEffect;
    cbn [snd]; break_matches; reflexivity.
Qed.

Lemma run_directionMemo evs : forall s, directionMemo (run s evs) = directionMemo s.
Proof.
  induction evs as [|ev evs IH]; intros s; simpl; [reflexivity|].
  rewrite IH. apply step_directionMemo.
Qed.

Lemma step_props s ev :
  props (step s ev) = match ev with Render p => p | _ => props s end.
Proof.
  destruct ev as [e t| |p|v|];
    [destruct e| | | |];
    unfold step, onHeadThrottled, onTailThrottled, Throttle.useThrottle,
      onHeadCallback, onTailCallback, saveScrollStates, layoutEffect, render,
      directionEffect;
    cbn [snd]; break_matches; reflexivity.
Qed.

Lemma step_trace_grows s ev x : In x (trace s) -> In x (trace (step s ev)).
Proof.
  intros Hx.
  destruct ev as [e t| |p|v|];
    [destruct e| | | |];
    unfold step, onHeadThrottled, onTailThrottled, Throttle.useThrottle,
      onHeadCallback, onTailCallback, saveScrollStates, layoutEffect, render,
      directionEffect, write_scrollLeft, write_scrollTop;
    cbn [snd]; break_matches; simpl;
    repeat (apply in_or_app; left); exact Hx.
Qed.

(** End-to-end scenario 1 of the specification: [row], scroll extent
    1000, offset 200; the head fires, the content grows to 1400, the
    mutation settles: the offset is 600 and nothing is pending. *)
Example scenario_head_prepend_row :
  let p := mkProps "row" true true None None true true in
  let s := run (mount p (mkViewport 1000 80 200 0))
             [EdgeFire head 1700000000000; Layout (mkViewport 1400 80 200 0); Settle] in
  viewportRef s = Some (mkViewport 1400 80 600 0) /\ action s = None /\
  trace s = [CallOnHead; WriteScrollLeft 600].
Proof. repeat split. Qed.

(** End-to-end scenario 4: [column-reverse], delta 50: a tail-triggered
    settlement adds 50 to the offset, a head-triggered one leaves it. *)
Example scenario_column_reverse :
  let p := mkProps "column-reverse" true true None None true true in
  let s0 := mount p (mkViewport 80 1000 0 (-200)) in
  viewportRef (run s0 [EdgeFire tail 1700000000000;
                       Layout (mkViewport 80 1050 0 (-200)); Settle]) =
    Some (mkViewport 80 1050 0 (-150)) /\
  viewportRef (run s0 [EdgeFire head 1700000000000;
                       Layout (mkViewport 80 1050 0 (-200)); Settle]) =
    Some (mkViewport 80 1050 0 (-200)).
Proof. split; reflexivity. Qed.

(** C1: when a content mutation settles while an edge is pending, the
    offset of the main axis is assigned once: to [offsetBefore + delta]
    for a pending head under [row] / [column] and for a pending tail
    under [row-reverse] / [column-reverse], and to [offsetBefore] in the
    two other cases.  [offsetBefore] and [extentBefore] are the recorded
    metrics, [delta] is the extent at settlement minus [extentBefore],
    and the main axis is width / left for the row directions and height
    / top for the column ones.  The recorded metrics are those of the
    viewport at the time of the edge-fire that entered the pending
    state (renders and layouts may come between it and the
    settlement). *)
Theorem correction_sign_law (s1 : State) (v1 : Viewport) (e : Action) :
  recognized (directionMemo s1) ->
  viewportRef s1 = Some v1 ->
  action s1 = Some e ->
  let d := directionMemo s1 in
  let offsetBefore := recorded_offset d s1 in
  let delta := main_extent d v1 - recorded_extent d s1 in
  (exists v2,
     viewportRef (step s1 Settle) = Some v2 /\
     (forward d -> e = head -> main_offset d v2 = offsetBefore + delta) /\
     (forward d -> e = tail -> main_offset d v2 = offsetBefore) /\
     (reverse d -> e = head -> main_offset d v2 = offsetBefore) /\
     (reverse d -> e = tail -> main_offset d v2 = offsetBefore + delta) /\
     main_extent d v2 = main_extent d v1 /\
     cross_offset d v2 = cross_offset d v1 /\
     trace (step s1 Settle) = trace s1 ++ [main_write d (main_offset d v2)]) /\
  (forall s now v0 evs,
     viewportRef s = Some v0 ->
     gate_open e now s = true ->
     hasMore e (props s) = true ->
     Forall quiet evs ->
     s1 = run (step s (EdgeFire e now)) evs ->
     offsetBefore = main_offset d v0 /\
     recorded_extent d s1 = main_extent d v0).
Proof.
  intros Hd Hv1 Ha1 d offsetBefore delta. split.
  - pose proof (layoutEffect_pending s1 v1 e Hv1 Ha1 Hd) as HL.
    cbv zeta in HL. fold d in HL. fold delta in HL. fold offsetBefore in HL.
    change (step s1 Settle) with (layoutEffect s1). rewrite HL.
    eexists; split; [reflexivity|].
    unfold forward, reverse, main_offset, main_extent, cross_offset, main_write.
    fold d in Hd. clearbody delta offsetBefore. clear HL. clearbody d.
    by_direction Hd; subst d; simpl;
      repeat split; try reflexivity;
      intros [Hx | Hx] He; try discriminate Hx; subst e; reflexivity.
  - intros s now v0 evs Hv Hg Hm Hq Hs1.
    destruct (quiet_run evs (step s (EdgeFire e now)) Hq)
      as (_ & Qd & Qw & Qh & Ql & Qt).
    rewrite <- Hs1 in Qd, Qw, Qh, Ql, Qt.
    assert (Hds : directionMemo s = d).
    { unfold d. rewrite Qd. symmetry. apply step_directionMemo. }
    assert (Hr : recognized (directionMemo s)) by (rewrite Hds; exact Hd).
    destruct (fire_records s e now v0 Hr Hv Hg Hm) as (_ & _ & _ & Fe & Fo).
    rewrite Hds in Fe, Fo. rewrite <- Fe, <- Fo.
    unfold offsetBefore, recorded_offset, recorded_extent.
    destruct (horizontal d); split; assumption.
Qed.

Lemma correction_sign_law_witness :
  let p := mkProps "row" true true None None true true in
  let s := mount p (mkViewport 1000 80 200 0) in
  let s1 := run (step s (EdgeFire head 1700000000000))
              [Render p; Layout (mkViewport 1400 80 200 0)] in
  (exists v2,
     viewportRef (step s1 Settle) = Some v2 /\
     main_offset "row" v2 = recorded_offset "row" s1 + (1400 - recorded_extent "row" s1)) /\
  recorded_offset "row" s1 = 200 /\ recorded_extent "row" s1 = 1000.
Proof.
  destruct (correction_sign_law
              (run (step (mount (mkProps "row" true true None None true true)
                            (mkViewport 1000 80 200 0))
                      (EdgeFire head 1700000000000))
                 [Render (mkProps "row" true true None None true true);
                  Layout (mkViewport 1400 80 200 0)])
              (mkViewport 1400 80 200 0) head)
    as ((v2 & H1 & H2 & _) & HB).
  - left; reflexivity.
  - reflexivity.
  - reflexivity.
  - split.
    + exists v2. split; [exact H1|]. apply H2; [left|]; reflexivity.
    + apply (HB (mount (mkProps "row" true true None None true true)
                   (mkViewport 1000 80 200 0))
                1700000000000 (mkViewport 1000 80 200 0)
                [Render (mkProps "row" true true None None true true);
                 Layout (mkViewport 1400 80 200 0)]);
        try reflexivity.
      repeat constructor.
Defined.

(** *** Settling with nothing pending *)

(** C3: with no edge pending the settlement step returns the state it was
    given: no offset changes and the trace gets no write.  A settlement
    with an edge pending and a delta of zero is another thing: it assigns
    the recorded offset to the viewport (one write in the trace) and
    clears the pending edge. *)
Theorem settle_without_pending_is_noop (s : State) :
  action s = None ->
  step s Settle = s /\
  viewportRef (step s Settle) = viewportRef s /\
  trace (step s Settle) = trace s /\
  (forall s0 v a,
     viewportRef s0 = Some v -> action s0 = Some a ->
     recognized (directionMemo s0) ->
     main_extent (directionMemo s0) v = recorded_extent (directionMemo s0) s0 ->
     trace (step s0 Settle) =
       trace s0 ++ [main_write (directionMemo s0)
                      (recorded_offset (directionMemo s0) s0)] /\
     action (step s0 Settle) = None /\
     step s0 Settle <> s0).
Proof.
  intros Ha. simpl. rewrite (layoutEffect_idle s Ha).
  split; [reflexivity|]. split; [reflexivity|]. split; [reflexivity|].
  intros s0 v a Hv Hp Hd Hz.
  rewrite (layoutEffect_pending s0 v a Hv Hp Hd). cbv zeta. rewrite Hz.
  rewrite Z.sub_diag, Z.add_0_r.
  split; [destruct (Bool.eqb _ _); reflexivity|].
  split; [reflexivity|].
  intros Heq. apply (f_equal action) in Heq. simpl in Heq. congruence.
Qed.

Lemma settle_without_pending_is_noop_witness :
  let s := mount (mkProps "row" true true None None true true)
             (mkViewport 1000 80 200 0) in
  action s = None /\ step s Settle = s.
Proof.
  split; [reflexivity|].
  apply (settle_without_pending_is_noop
           (mount (mkProps "row" true true None None true true)
              (mkViewport 1000 80 200 0))).
  reflexivity.
Defined.

(** *** The default branch of the switch *)

Lemma unrecognized_eqb d :
  ~ recognized d ->
  String.eqb d "row" = false /\ String.eqb d "row-reverse" = false /\
  String.eqb d "column" = false /\ String.eqb d "column-reverse" = false.
Proof.
  intros H; repeat split; apply String.eqb_neq; intros ->; apply H;
    unfold recognized; tauto.
Qed.

Lemma logging_false p : logging p = false <-> disableLog p = Some true.
Proof.
  unfold logging. destruct (disableLog p) as [[|]|]; split; intros H;
    try reflexivity; discriminate H.
Qed.

Lemma logging_true p : logging p = true <-> disableLog p <> Some true.
Proof.
  unfold logging. destruct (disableLog p) as [[|]|]; split; intros H;
    try reflexivity; try discriminate; try discriminate H.
  contradiction H; reflexivity.
Qed.

(** C9: when the settlement step runs with an edge pending and a
    memoized direction that is none of the four, it writes nothing to the
    viewport and clears the pending edge.  It logs one error, except
    when the [disableLog] prop is set: with [disableLog] true the trace
    is left as it was, with [disableLog] false or absent the trace gains
    exactly the error.  The step is a total function, there is no
    exception. *)
Theorem unrecognized_direction_skips_correction
    (s : State) (v : Viewport) (a : Action) :
  viewportRef s = Some v -> action s = Some a ->
  ~ recognized (directionMemo s) ->
  step s Settle =
    setAction None (if logging (props s) then emit ConsoleError s else s) /\
  viewportRef (step s Settle) = Some v /\
  action (step s Settle) = None /\
  trace (step s Settle) =
    trace s ++ (if logging (props s) then [ConsoleError] else []) /\
  (disableLog (props s) = Some true -> trace (step s Settle) = trace s) /\
  (disableLog (props s) <> Some true ->
     trace (step s Settle) = trace s ++ [ConsoleError]).
Proof.
  intros Hv Ha Hd.
  destruct (unrecognized_eqb _ Hd) as (E1 & E2 & E3 & E4).
  assert (HL : step s Settle =
               setAction None (if logging (props s) then emit ConsoleError s else s)).
  { simpl. unfold layoutEffect. rewrite Hv, Ha, E1, E2, E3, E4. reflexivity. }
  rewrite HL. split; [reflexivity|].
  split; [destruct (logging (props s)); simpl; auto|].
  split; [destruct (logging (props s)); reflexivity|].
  split; [destruct (logging (props s)); simpl; rewrite ?app_nil_r; reflexivity|].
  split.
  - intros Hoff. apply logging_false in Hoff. rewrite Hoff. reflexivity.
  - intros Hon. apply logging_true in Hon. rewrite Hon. reflexivity.
Qed.

Lemma unrecognized_direction_skips_correction_witness :
  let quiet_props := mkProps "diagonal" true true None (Some true) true true in
  let loud_props := mkProps "diagonal" true true None (Some false) true true in
  let s0 := step (mount quiet_props (mkViewport 1000 80 200 0))
              (EdgeFire head 1700000000000) in
  let s1 := step (mount loud_props (mkViewport 1000 80 200 0))
              (EdgeFire head 1700000000000) in
  (action s0 = Some head /\ disableLog (props s0) = Some true /\
   trace (step s0 Settle) = trace s0 /\ action (step s0 Settle) = None /\
   viewportRef (step s0 Settle) = Some (mkViewport 1000 80 200 0)) /\
  (action s1 = Some head /\ disableLog (props s1) <> Some true /\
   trace (step s1 Settle) = trace s1 ++ [ConsoleError]).
Proof.
  assert (Hd : ~ recognized "diagonal")
    by (unfold recognized; intros [H | [H | [H | H]]]; discriminate H).
  split.
  - destruct (unrecognized_direction_skips_correction
                (step (mount (mkProps "diagonal" true true None (Some true) true true)
                         (mkViewport 1000 80 200 0))
                   (EdgeFire head 1700000000000))
                (mkViewport 1000 80 200 0) head eq_refl eq_refl Hd)
      as (_ & Hv & Ha & _ & Hoff & _).
    split; [reflexivity|]. split; [reflexivity|].
    split; [apply Hoff; reflexivity|]. split; assumption.
  - destruct (unrecognized_direction_skips_correction
                (step (mount (mkProps "diagonal" true true None (Some false) true true)
                         (mkViewport 1000 80 200 0))
                   (EdgeFire head 1700000000000))
                (mkViewport 1000 80 200 0) head eq_refl eq_refl Hd)
      as (_ & _ & _ & _ & _ & Hon).
    split; [reflexivity|]. split; [discriminate|].
    apply Hon. discriminate.
Defined.

(** *** Edge-fires that record nothing *)

Lemma frame_set_lastCallRef_of e x s :
  action (set_lastCallRef_of e x s) = action s /\
  viewportRef (set_lastCallRef_of e x s) = viewportRef s /\
  trace (set_lastCallRef_of e x s) = trace s /\
  props (set_lastCallRef_of e x s) = props s /\
  directionMemo (set_lastCallRef_of e x s) = directionMemo s /\
  scrollWidthRef (set_lastCallRef_of e x s) = scrollWidthRef s /\
  scrollHeightRef (set_lastCallRef_of e x s) = scrollHeightRef s /\
  scrollLeftRef (set_lastCallRef_of e x s) = scrollLeftRef s /\
  scrollTopRef (set_lastCallRef_of e x s) = scrollTopRef s /\
  lastCallRef_of e (set_lastCallRef_of e x s) = x.
Proof. destruct e; repeat split. Qed.

Lemma fire_flag_false s e now :
  gate_open e now s = true -> hasMore e (props s) = false ->
  step s (EdgeFire e now) = set_lastCallRef_of e now s.
Proof.
  intros Hg Hm. rewrite step_fire, throttled_open by exact Hg.
  rewrite Hm. reflexivity.
Qed.

(** C5: an edge-fire that passes the throttle gate while the flag of its
    edge is false changes nothing but the gate's ref: no pending action,
    no recorded metrics, no call of [onHead] / [onTail], no write to the
    viewport. *)
Theorem fire_without_more_is_dropped (s : State) (e : Action) (now : Z) :
  gate_open e now s = true ->
  hasMore e (props s) = false ->
  let s' := step s (EdgeFire e now) in
  s' = set_lastCallRef_of e now s /\
  action s' = action s /\
  scrollWidthRef s' = scrollWidthRef s /\ scrollHeightRef s' = scrollHeightRef s /\
  scrollLeftRef s' = scrollLeftRef s /\ scrollTopRef s' = scrollTopRef s /\
  trace s' = trace s /\
  viewportRef s' = viewportRef s.
Proof.
  intros Hg Hm. cbv zeta. rewrite (fire_flag_false s e now Hg Hm).
  destruct (frame_set_lastCallRef_of e now s)
    as (F1 & F2 & F3 & _ & _ & F6 & F7 & F8 & F9 & _).
  repeat split; assumption.
Qed.

(** End-to-end scenario 2: as scenario 1 with [hasMoreAtHead] false. *)
Lemma fire_without_more_is_dropped_witness :
  let s := mount (mkProps "row" false true None None true true)
             (mkViewport 1000 80 200 0) in
  let s' := step s (EdgeFire head 1700000000000) in
  action s' = None /\ trace s' = [] /\
  viewportRef s' = Some (mkViewport 1000 80 200 0).
Proof.
  destruct (fire_without_more_is_dropped
              (mount (mkProps "row" false true None None true true)
                 (mkViewport 1000 80 200 0))
              head 1700000000000 eq_refl eq_refl)
    as (_ & H1 & _ & _ & _ & _ & H2 & H3).
  repeat split; assumption.
Defined.

(** *** A detached viewport *)

Lemma saveScrollStates_detached e s :
  viewportRef s = None -> saveScrollStates e s = s.
Proof. unfold saveScrollStates; intros ->; reflexivity. Qed.

(** C8, as the claim words it, fails for edge-fires: with the viewport
    detached, an edge-fire that passes the gate with its flag true
    records nothing, but it does call [onHead]. *)
Lemma detached_fire_still_calls_back :
  let s := run (mount (mkProps "row" true true None None true true)
                  (mkViewport 1000 80 200 0)) [Detach] in
  viewportRef s = None /\ trace s = [] /\
  trace (step s (EdgeFire head 1700000000000)) = [CallOnHead] /\
  headLastCallRef (step s (EdgeFire head 1700000000000)) = 1700000000000.
Proof. repeat split. Qed.

(** C8 (amended): with the viewport detached, a settlement is ignored
    altogether, and an edge-fire records no metrics, enters no pending
    action, attempts no correction and logs nothing; an edge-fire that
    passes the gate still assigns the gate's ref and, when its flag is
    true, still calls [onHead] / [onTail]. *)
Theorem detached_viewport_records_nothing (s : State) :
  viewportRef s = None ->
  step s Settle = s /\
  forall e now,
    let s' := step s (EdgeFire e now) in
    viewportRef s' = None /\
    action s' = action s /\
    scrollWidthRef s' = scrollWidthRef s /\ scrollHeightRef s' = scrollHeightRef s /\
    scrollLeftRef s' = scrollLeftRef s /\ scrollTopRef s' = scrollTopRef s /\
    trace s' =
      trace s ++
      (if gate_open e now s && hasMore e (props s) && supplied e (props s)
       then [Call e] else []) /\
    lastCallRef_of e s' = (if gate_open e now s then now else lastCallRef_of e s).
Proof.
  intros Hv. split; [apply layoutEffect_detached, Hv|].
  intros e now. cbv zeta. rewrite step_fire.
  destruct (gate_open e now s) eqn:Hg.
  - rewrite throttled_open by exact Hg. cbn [snd andb].
    destruct (frame_set_lastCallRef_of e now s)
      as (F1 & F2 & F3 & _ & _ & F6 & F7 & F8 & F9 & F10).
    rewrite saveScrollStates_detached by (rewrite F2; exact Hv).
    destruct (hasMore e (props s)); [destruct (supplied e (props s))|];
      simpl; rewrite ?app_nil_r, ?F1, ?F2, ?F3, ?F6, ?F7, ?F8, ?F9, ?F10;
      repeat split; assumption || reflexivity.
  - rewrite throttled_closed by exact Hg. simpl. rewrite app_nil_r.
    repeat split; assumption.
Qed.

Lemma detached_viewport_records_nothing_witness :
  let s := run (mount (mkProps "row" true true None None true true)
                  (mkViewport 1000 80 200 0))
             [EdgeFire head 1700000000000; Detach] in
  viewportRef s = None /\ step s Settle = s.
Proof.
  split; [reflexivity|].
  apply (detached_viewport_records_nothing
           (run (mount (mkProps "row" true true None None true true)
                   (mkViewport 1000 80 200 0))
              [EdgeFire head 1700000000000; Detach])).
  reflexivity.
Defined.

(** *** The pending edge *)

Lemma layoutEffect_clears s v a :
  viewportRef s = Some v -> action s = Some a -> action (layoutEffect s) = None.
Proof.
  intros Hv Ha. unfold layoutEffect. rewrite Hv, Ha. reflexivity.
Qed.

(** Only a qualifying edge-fire takes the state from idle to pending. *)
Lemma pending_entered_by_qualifying_fire s ev e :
  action s = None -> action (step s ev) = Some e ->
  exists now, ev = EdgeFire e now /\
    gate_open e now s = true /\ hasMore e (props s) = true /\
    viewportRef s <> None.
Proof.
  intros Ha Hs. destruct ev as [e' now| |p|v|].
  - rewrite step_fire in Hs. destruct (gate_open e' now s) eqn:Hg.
    + rewrite throttled_open in Hs by exact Hg. cbn [snd] in Hs.
      destruct (frame_set_lastCallRef_of e' now s) as (F1 & F2 & _).
      destruct (hasMore e' (props s)) eqn:Hm; [|congruence].
      destruct (viewportRef s) as [v|] eqn:Hv.
      * assert (He : e' = e).
        { unfold saveScrollStates in Hs. rewrite F2 in Hs.
          destruct (supplied e' (props s)), (isColumn _);
            simpl in Hs; congruence. }
        subst e'. exists now. repeat split; try assumption. discriminate.
      * rewrite saveScrollStates_detached in Hs by congruence.
        destruct (supplied e' (props s)); simpl in Hs; congruence.
    + rewrite throttled_closed in Hs by exact Hg. simpl in Hs. congruence.
  - simpl in Hs. rewrite layoutEffect_idle in Hs by exact Ha. congruence.
  - destruct (quiet_step s (Render p) I) as (Q & _). congruence.
  - destruct (quiet_step s (Layout v) I) as (Q & _). congruence.
  - simpl in Hs. congruence.
Qed.

Lemma unqualified_stays_idle evs : forall s,
  action s = None -> unqualified s evs -> action (run s evs) = None.
Proof.
  induction evs as [|ev evs IH]; intros s Ha Hu; simpl; [exact Ha|].
  destruct Hu as [Hq Hu]. apply IH; [|exact Hu].
  destruct (action (step s ev)) as [e|] eqn:Hs; [|reflexivity].
  exfalso. apply Hq.
  destruct (pending_entered_by_qualifying_fire s ev e Ha Hs)
    as (now & -> & Hg & Hm & _).
  exists e, now. auto.
Qed.

(** *** The gate's ref *)

Lemma lastCallRef_of_step s ev e :
  (forall t, ev <> EdgeFire e t) ->
  lastCallRef_of e (step s ev) = lastCallRef_of e s.
Proof.
  intros Hne. destruct ev as [e' t| |p|v|].
  - assert (He : e' <> e) by (intros ->; apply (Hne t); reflexivity).
    destruct e, e'; try (exfalso; apply He; reflexivity);
      unfold step, onHeadThrottled, onTailThrottled, Throttle.useThrottle,
        onHeadCallback, onTailCallback, saveScrollStates;
      cbn [snd]; break_matches; reflexivity.
  - unfold step, layoutEffect. destruct e; break_matches; reflexivity.
  - unfold step, render, directionEffect. destruct e; break_matches; reflexivity.
  - unfold step. destruct e; break_matches; reflexivity.
  - destruct e; reflexivity.
Qed.

Lemma lastCallRef_of_run evs e : forall s,
  Forall (fun ev => forall t, ev <> EdgeFire e t) evs ->
  lastCallRef_of e (run s evs) = lastCallRef_of e s.
Proof.
  induction evs as [|ev evs IH]; intros s H; simpl; [reflexivity|].
  inversion H as [|? ? Hev Hevs]; subst.
  rewrite IH by exact Hevs. apply lastCallRef_of_step, Hev.
Qed.

(** C10: an edge-fire that passes the gate runs the wrapped callback,
    and with it the test of the flag, in a state whose [lastCallRef]
    already holds the time of the fire.  When the flag is false nothing
    else changes, and a later fire of the same edge that comes less than
    the cooldown after it is suppressed, whatever was rendered or laid
    out in between. *)
Theorem flag_false_fire_starts_cooldown
    (s : State) (e : Action) (now : Z) (evs : list Event) (now' : Z) :
  gate_open e now s = true ->
  hasMore e (props s) = false ->
  Forall (fun ev => forall t, ev <> EdgeFire e t) evs ->
  let s1 := step s (EdgeFire e now) in
  let s2 := run s1 evs in
  now' - now < Throttle.delay_of (throttleDelay (props s2)) ->
  throttled e now s = wrapped e tt (set_lastCallRef_of e now s) /\
  lastCallRef_of e s1 = now /\
  action s1 = action s /\
  trace s1 = trace s /\
  gate_open e now' s2 = false /\
  step s2 (EdgeFire e now') = s2.
Proof.
  intros Hg Hm Hevs s1 s2 Hlt.
  pose proof (fire_flag_false s e now Hg Hm) as Hs1. fold s1 in Hs1.
  destruct (frame_set_lastCallRef_of e now s) as (Ha & _ & Ht & _).
  rewrite <- Hs1 in Ha, Ht.
  assert (Hl1 : lastCallRef_of e s1 = now).
  { rewrite Hs1. apply frame_set_lastCallRef_of. }
  assert (Hc : gate_open e now' s2 = false).
  { unfold gate_open. unfold s2. rewrite lastCallRef_of_run by exact Hevs.
    rewrite Hl1. apply ThrottleSpec.passes_false. exact Hlt. }
  split.
  { unfold gate_open in Hg. destruct e; simpl in Hg |- *;
      apply ThrottleSpec.useThrottle_forwarded; exact Hg. }
  repeat split; try assumption.
  rewrite step_fire, throttled_closed by exact Hc. reflexivity.
Qed.

Lemma flag_false_fire_starts_cooldown_witness :
  let s := mount (mkProps "row" false true None None true true)
             (mkViewport 1000 80 200 0) in
  let s2 := run (step s (EdgeFire head 1700000000000))
              [Render (mkProps "row" true true None None true true)] in
  hasMore head (props s2) = true /\
  step s2 (EdgeFire head 1700000000400) = s2.
Proof.
  split; [reflexivity|].
  apply (flag_false_fire_starts_cooldown
           (mount (mkProps "row" false true None None true true)
              (mkViewport 1000 80 200 0))
           head 1700000000000
           [Render (mkProps "row" true true None None true true)]
           1700000000400).
  - reflexivity.
  - reflexivity.
  - repeat constructor; discriminate.
  - reflexivity.
Defined.

(** *** The memoized direction *)

Lemma mount_eq p v :
  mount p v =
  mkState p (direction p) (Some v) None 0 0 0 0
    Throttle.initial_lastCall Throttle.initial_lastCall [].
Proof.
  unfold mount, layoutEffect, directionEffect; simpl.
  rewrite String.eqb_refl. reflexivity.
Qed.

Lemma same_flag_logging p p' :
  same_flag (disableLog p) (disableLog p') = true -> logging p = logging p'.
Proof.
  unfold logging, same_flag.
  destruct (disableLog p) as [[|]|], (disableLog p') as [[|]|];
    intros H; try discriminate H; reflexivity.
Qed.

Lemma warned_render s p : warned s -> warned (render p s).
Proof.
  unfold warned, render. intros Hw.
  destruct (negb (String.eqb (direction p) (direction (props s))) ||
            negb (same_flag (disableLog p) (disableLog (props s)))) eqn:Hc.
  - unfold directionEffect; simpl.
    destruct (String.eqb_spec (direction p) (directionMemo s)) as [He|He]; simpl.
    + intros Hd; contradiction.
    + destruct (logging p) eqn:Hl; simpl.
      * intros _ _. apply in_or_app; right; left; reflexivity.
      * intros _ Hx. rewrite Hl in Hx. discriminate Hx.
  - apply Bool.orb_false_elim in Hc. destruct Hc as [Hd Hf].
    apply Bool.negb_false_iff in Hd, Hf. apply String.eqb_eq in Hd.
    simpl. rewrite Hd, (same_flag_logging _ _ Hf). exact Hw.
Qed.

Lemma warned_step s ev : warned s -> warned (step s ev).
Proof.
  intros Hw. destruct ev as [e t| |p|v|]; try (apply warned_render, Hw);
    unfold warned; rewrite step_props, step_directionMemo;
    intros Hd Hl; apply step_trace_grows, Hw; assumption.
Qed.

Lemma warned_run evs : forall s, warned s -> warned (run s evs).
Proof.
  induction evs as [|ev evs IH]; intros s Hw; simpl; [exact Hw|].
  apply IH, warned_step, Hw.
Qed.

(** The handlers and the layout effect do not read the [direction] prop. *)
Lemma settle_ignores_direction_prop d s :
  step (with_direction d s) Settle = with_direction d (step s Settle).
Proof.
  destruct s as [p dm vr ac wr hr lr tr hl tl tc].
  destruct p as [pd hh ht td dl oh ot].
  unfold step, layoutEffect, with_direction, isColumn, logging; simpl.
  break_matches; reflexivity.
Qed.

Lemma fire_ignores_direction_prop d s e now :
  step (with_direction d s) (EdgeFire e now) =
  with_direction d (step s (EdgeFire e now)).
Proof.
  destruct s as [p dm vr ac wr hr lr tr hl tl tc].
  destruct p as [pd hh ht td dl oh ot].
  destruct e;
    unfold step, onHeadThrottled, onTailThrottled, Throttle.useThrottle,
      onHeadCallback, onTailCallback, saveScrollStates, with_direction, isColumn;
    simpl; break_matches; reflexivity.
Qed.

(** The table of the layout effect, read along a direction [d] that is
    the memoized one. *)
Lemma layoutEffect_table s v a d :
  recognized d -> directionMemo s = d ->
  viewportRef s = Some v -> action s = Some a ->
  let offsetBefore := recorded_offset d s in
  let delta := main_extent d v - recorded_extent d s in
  exists v2,
    viewportRef (step s Settle) = Some v2 /\
    (forward d -> a = head -> main_offset d v2 = offsetBefore + delta) /\
    (forward d -> a = tail -> main_offset d v2 = offsetBefore) /\
    (reverse d -> a = head -> main_offset d v2 = offsetBefore) /\
    (reverse d -> a = tail -> main_offset d v2 = offsetBefore + delta) /\
    cross_offset d v2 = cross_offset d v /\
    trace (step s Settle) = trace s ++ [main_write d (main_offset d v2)].
Proof.
  intros Hd Hm Hv Ha offsetBefore delta.
  assert (Hr : recognized (directionMemo s)) by (rewrite Hm; exact Hd).
  pose proof (layoutEffect_pending s v a Hv Ha Hr) as HL.
  cbv zeta in HL. rewrite Hm in HL. fold delta in HL. fold offsetBefore in HL.
  change (step s Settle) with (layoutEffect s). rewrite HL.
  eexists; split; [reflexivity|].
  unfold forward, reverse, main_offset, cross_offset, main_write.
  clearbody delta offsetBefore. clear HL Hm Hr.
  by_direction Hd; subst d; simpl;
    repeat split; try reflexivity;
    intros [Hx | Hx] He; try discriminate Hx; subst a; reflexivity.
Qed.

(** C6: the direction is fixed when the component mounts.  After any run
    of events the memoized direction is still the [direction] of the
    first render, and the axis test [isColumn] is the test of that first
    direction.  A render whose [direction] differs from it logs the
    warning when the prop changes, unless [disableLog] is true: with
    [disableLog] false or absent the trace gains the warning (and the
    warning is in the trace whenever the current prop differs), with
    [disableLog] true a render logs nothing.  Whatever the current
    [direction] prop is, an edge-fire records the metrics of the main
    axis of the first direction, and a settlement applies the row of the
    correction table of the first direction on that axis; both steps
    commute with any change of the [direction] prop. *)
Theorem direction_is_fixed_at_mount (p : Props) (v : Viewport) (evs : list Event) :
  let s := run (mount p v) evs in
  let d := direction p in
  directionMemo s = d /\
  isColumn s = includes "column" d /\
  (direction (props s) <> d -> disableLog (props s) <> Some true ->
     In (ConsoleWarn (direction (props s)) d) (trace s)) /\
  (forall p', direction p' <> direction (props s) -> direction p' <> d ->
     disableLog p' <> Some true ->
     trace (step s (Render p')) = trace s ++ [ConsoleWarn (direction p') d] /\
     directionMemo (step s (Render p')) = d) /\
  (forall p', disableLog p' = Some true ->
     trace (step s (Render p')) = trace s) /\
  (recognized d -> forall e now v1,
     viewportRef s = Some v1 -> gate_open e now s = true ->
     hasMore e (props s) = true ->
     recorded_extent d (step s (EdgeFire e now)) = main_extent d v1 /\
     recorded_offset d (step s (EdgeFire e now)) = main_offset d v1) /\
  (recognized d -> forall a v1,
     viewportRef s = Some v1 -> action s = Some a ->
     let offsetBefore := recorded_offset d s in
     let delta := main_extent d v1 - recorded_extent d s in
     exists v2,
       viewportRef (step s Settle) = Some v2 /\
       (forward d -> a = head -> main_offset d v2 = offsetBefore + delta) /\
       (forward d -> a = tail -> main_offset d v2 = offsetBefore) /\
       (reverse d -> a = head -> main_offset d v2 = offsetBefore) /\
       (reverse d -> a = tail -> main_offset d v2 = offsetBefore + delta) /\
       cross_offset d v2 = cross_offset d v1 /\
       trace (step s Settle) = trace s ++ [main_write d (main_offset d v2)]) /\
  (forall d',
     isColumn (with_direction d' s) = isColumn s /\
     step (with_direction d' s) Settle = with_direction d' (step s Settle) /\
     forall e now,
       step (with_direction d' s) (EdgeFire e now) =
       with_direction d' (step s (EdgeFire e now))).
Proof.
  intros s d.
  assert (Hm : directionMemo s = d).
  { unfold s. rewrite run_directionMemo, mount_eq. reflexivity. }
  assert (Hw : warned s).
  { unfold s. apply warned_run. rewrite mount_eq. intros Hd. simpl in Hd.
    contradiction Hd; reflexivity. }
  split; [exact Hm|].
  split; [unfold isColumn; rewrite Hm; reflexivity|].
  split.
  { intros Hd Hl. unfold warned in Hw. rewrite Hm in Hw.
    apply Hw; [exact Hd | apply logging_true, Hl]. }
  split.
  { intros p' Hc Hd Hl. rewrite step_directionMemo. split; [|exact Hm].
    apply logging_true in Hl.
    simpl. unfold render.
    apply String.eqb_neq in Hc. rewrite Hc. simpl.
    unfold directionEffect. simpl. rewrite Hm.
    apply String.eqb_neq in Hd. rewrite Hd, Hl. reflexivity. }
  split.
  { intros p' Hl. apply logging_false in Hl.
    simpl. unfold render, directionEffect. simpl. rewrite Hl.
    rewrite Bool.andb_false_r. destruct (_ || _); reflexivity. }
  split.
  { intros Hd e now v1 Hv Hg Hh.
    assert (Hr : recognized (directionMemo s)) by (rewrite Hm; exact Hd).
    destruct (fire_records s e now v1 Hr Hv Hg Hh) as (_ & _ & _ & Fe & Fo).
    rewrite Hm in Fe, Fo. split; assumption. }
  split.
  { intros Hd a v1 Hv Ha. apply layoutEffect_table; assumption. }
  intros d'. split; [reflexivity|].
  split; [apply settle_ignores_direction_prop|].
  intros e now. apply fire_ignores_direction_prop.
Qed.

Lemma direction_is_fixed_at_mount_witness :
  let p := mkProps "column" true true None None true true in
  let quiet_row := mkProps "row" true true None (Some true) true true in
  let loud_row := mkProps "row" true true None (Some false) true true in
  let v := mkViewport 80 1000 7 200 in
  let s0 := run (mount p v) [] in
  let s := run (mount p v)
             [Render quiet_row; Render loud_row; EdgeFire head 1700000000000;
              Layout (mkViewport 80 1400 7 200)] in
  trace (step s0 (Render quiet_row)) = trace s0 /\
  trace (step s0 (Render loud_row)) = trace s0 ++ [ConsoleWarn "row" "column"] /\
  direction (props s) = "row" /\ isColumn s = true /\
  In (ConsoleWarn "row" "column") (trace s) /\
  exists v2,
    viewportRef (step s Settle) = Some v2 /\
    main_offset "column" v2 =
      recorded_offset "column" s +
      (main_extent "column" (mkViewport 80 1400 7 200) - recorded_extent "column" s) /\
    trace (step s Settle) = trace s ++ [WriteScrollTop 600].
Proof.
  pose proof (direction_is_fixed_at_mount
                (mkProps "column" true true None None true true)
                (mkViewport 80 1000 7 200) []) as H0.
  pose proof (direction_is_fixed_at_mount
                (mkProps "column" true true None None true true)
                (mkViewport 80 1000 7 200)
                [Render (mkProps "row" true true None (Some true) true true);
                 Render (mkProps "row" true true None (Some false) true true);
                 EdgeFire head 1700000000000;
                 Layout (mkViewport 80 1400 7 200)]) as H.
  cbv zeta in H0, H.
  destruct H0 as (_ & _ & _ & W0 & Q0 & _).
  destruct H as (_ & HC & HI & _ & _ & _ & HS & _).
  split; [apply Q0; reflexivity|].
  split; [apply W0; discriminate|].
  split; [reflexivity|].
  split; [exact HC|].
  split; [apply HI; discriminate|].
  destruct (HS (or_intror (or_intror (or_introl eq_refl))) head
              (mkViewport 80 1400 7 200) eq_refl eq_refl)
    as (v2 & Hv2 & Hf & _ & _ & _ & _ & Ht).
  exists v2. split; [exact Hv2|].
  split; [apply Hf; [right; reflexivity | reflexivity]|].
  rewrite Ht. f_equal. f_equal.
  rewrite (Hf (or_intror eq_refl) eq_refl). reflexivity.
Defined.

(** *** The attached viewport *)

Lemma step_fire_viewport s e now :
  viewportRef (step s (EdgeFire e now)) = viewportRef s.
Proof.
  rewrite step_fire. destruct (gate_open e now s) eqn:Hg.
  - rewrite throttled_open by exact Hg. cbn [snd].
    unfold saveScrollStates.
    destruct e; break_matches; reflexivity.
  - rewrite throttled_closed by exact Hg. reflexivity.
Qed.

Lemma step_keeps_viewport s ev :
  ev <> Detach -> viewportRef s <> None -> viewportRef (step s ev) <> None.
Proof.
  intros Hev Hv. destruct ev as [e t| |p'|v'|].
  - rewrite step_fire_viewport. exact Hv.
  - cbn [step]. unfold layoutEffect, write_scrollLeft, write_scrollTop.
    destruct (viewportRef s) as [v|] eqn:Ev; [|contradiction Hv; reflexivity].
    destruct (action s); [|rewrite Ev; discriminate].
    break_matches; simpl; try discriminate; rewrite Ev; discriminate.
  - cbn [step]. unfold render, directionEffect.
    break_matches; simpl; exact Hv.
  - cbn [step]. destruct (viewportRef s);
      [discriminate | exfalso; apply Hv; reflexivity].
  - contradiction Hev; reflexivity.
Qed.

Lemma run_keeps_viewport evs : forall s,
  Forall (fun ev => ev <> Detach) evs ->
  viewportRef s <> None -> viewportRef (run s evs) <> None.
Proof.
  induction evs as [|ev evs IH]; intros s H Hv; [exact Hv|].
  inversion H as [|? ? Hev Hevs]; subst.
  change (run s (ev :: evs)) with (run (step s ev) evs).
  apply IH; [exact Hevs|]. apply step_keeps_viewport; assumption.
Qed.

(** C4: the pending action is one cell holding [head], [tail] or
    nothing.  In every state that a mounted list reaches (any run of
    edge-fires, settlements, renders and layouts from the mount, the
    viewport staying attached for as long as the list is mounted), a
    settlement leaves no edge pending; and from a state with nothing
    pending a pending edge appears only by an edge-fire of that edge
    that passes the throttle gate with its flag true, so after the
    settlement nothing is pending for as long as no such edge-fire
    arrives. *)
Theorem pending_cleared_by_every_settlement
    (p : Props) (v : Viewport) (evs : list Event) :
  Forall (fun ev => ev <> Detach) evs ->
  let s := run (mount p v) evs in
  (forall a b, action s = Some a -> action s = Some b -> a = b) /\
  action (step s Settle) = None /\
  (forall ev e, action s = None -> action (step s ev) = Some e ->
     exists now, ev = EdgeFire e now /\
       gate_open e now s = true /\ hasMore e (props s) = true) /\
  (forall evs', unqualified (step s Settle) evs' ->
     action (run (step s Settle) evs') = None) /\
  (forall evs', action s = None -> unqualified s evs' ->
     action (run s evs') = None).
Proof.
  intros Hevs s.
  assert (Hv : viewportRef s <> None).
  { unfold s. apply run_keeps_viewport; [exact Hevs|].
    rewrite mount_eq. discriminate. }
  assert (Hc : action (step s Settle) = None).
  { destruct (viewportRef s) as [v1|] eqn:Ev; [|contradiction Hv; reflexivity].
    destruct (action s) as [a|] eqn:Ea.
    - apply (layoutEffect_clears s v1 a Ev Ea).
    - cbn [step]. rewrite layoutEffect_idle by exact Ea. exact Ea. }
  split; [intros a b Ha Hb; congruence|].
  split; [exact Hc|].
  split.
  - intros ev e Ha Hs.
    destruct (pending_entered_by_qualifying_fire s ev e Ha Hs)
      as (now & H1 & H2 & H3 & _).
    exists now; auto.
  - split.
    + intros evs'. apply unqualified_stays_idle. exact Hc.
    + intros evs'. apply unqualified_stays_idle.
Qed.

Lemma pending_cleared_by_every_settlement_witness :
  let p := mkProps "row" true true None None true true in
  let s := run (mount p (mkViewport 1000 80 200 0))
             [EdgeFire head 1700000000000; Layout (mkViewport 1400 80 200 0)] in
  action s = Some head /\
  action (step s Settle) = None /\
  action (run (step s Settle)
            [Layout (mkViewport 1400 80 600 0); EdgeFire head 1700000000400;
             Render (mkProps "row" false true None None true true);
             EdgeFire head 1700000002000; Settle]) = None.
Proof.
  assert (Hfree : Forall (fun ev => ev <> Detach)
                    [EdgeFire head 1700000000000;
                     Layout (mkViewport 1400 80 200 0)])
    by (repeat constructor; discriminate).
  destruct (pending_cleared_by_every_settlement
              (mkProps "row" true true None None true true)
              (mkViewport 1000 80 200 0)
              [EdgeFire head 1700000000000; Layout (mkViewport 1400 80 200 0)]
              Hfree) as (_ & Hc & _ & Hu & _).
  split; [reflexivity|]. split; [exact Hc|].
  apply Hu. cbn [unqualified].
  repeat split; intros (e & now & Hev & Hg & Hm);
    try discriminate Hev; inversion Hev; subst; vm_compute in Hg;
    try discriminate Hg; vm_compute in Hm; discriminate Hm.
Defined.

End ControllerSpec.

(** * Further properties of the throttle gate *)

Module ThrottleRuns.
Import Throttle.

Lemma last_cons (a : Z) l : forall d, last (a :: l) d = last l a.
Proof.
  revert a. induction l as [|b l IH]; intros a d; [reflexivity|].
  change (last (a :: b :: l) d) with (last (b :: l) d).
  rewrite (IH b d). symmetry. apply (IH b a).
Qed.

Lemma chain_snoc delay t l : forall prev,
  chain delay prev l -> delay <= t - last l prev -> chain delay prev (l ++ [t]).
Proof.
  induction l as [|a l IH]; intros prev Hc Ht.
  - split; [exact Ht | exact I].
  - destruct Hc as [Ha Hc]. rewrite last_cons in Ht.
    split; [exact Ha|]. apply IH; assumption.
Qed.

Lemma attempt_all_snoc delay g ts t :
  attempt_all delay g (ts ++ [t]) = attempt delay t (attempt_all delay g ts).
Proof. unfold attempt_all. rewrite fold_left_app. reflexivity. Qed.

(** The ref of a gate holds the time of its latest forwarded call. *)
Lemma attempt_all_ref delay ts : forall g,
  lastCallRef g = last (calls g) initial_lastCall ->
  lastCallRef (attempt_all delay g ts) =
  last (calls (attempt_all delay g ts)) initial_lastCall.
Proof.
  induction ts as [|t ts IH]; intros g Hg; simpl; [exact Hg|].
  apply IH. rewrite ThrottleSpec.attempt_eq.
  destruct (passes delay t (lastCallRef g)); [|exact Hg].
  simpl. rewrite last_last. reflexivity.
Qed.

Lemma attempt_all_chain delay ts : forall g,
  lastCallRef g = last (calls g) initial_lastCall ->
  chain delay initial_lastCall (calls g) ->
  chain delay initial_lastCall (calls (attempt_all delay g ts)).
Proof.
  induction ts as [|t ts IH]; intros g Hg Hc; simpl; [exact Hc|].
  rewrite ThrottleSpec.attempt_eq.
  destruct (passes delay t (lastCallRef g)) eqn:Hp.
  - apply IH; simpl.
    + rewrite last_last. reflexivity.
    + apply chain_snoc; [exact Hc|].
      rewrite <- Hg. apply ThrottleSpec.passes_spec. exact Hp.
  - apply IH; assumption.
Qed.

Lemma chain_from_prev delay l : forall prev j,
  0 <= delay -> chain delay prev l -> (j < List.length l)%nat ->
  delay <= nth j l 0 - prev.
Proof.
  induction l as [|a l IH]; intros prev j Hd Hc Hj; simpl in Hj; [lia|].
  destruct Hc as [Ha Hc]. destruct j as [|j]; simpl; [exact Ha|].
  specialize (IH a j Hd Hc). lia.
Qed.

Lemma chain_pairwise delay l : forall prev i j,
  0 <= delay -> chain delay prev l -> (i < j < List.length l)%nat ->
  delay <= nth j l 0 - nth i l 0.
Proof.
  induction l as [|a l IH]; intros prev i j Hd Hc Hij; simpl in Hij; [lia|].
  destruct Hc as [Ha Hc]. destruct j as [|j]; [lia|].
  destruct i as [|i]; simpl.
  - apply (chain_from_prev delay l a j Hd Hc). lia.
  - apply (IH a i j Hd Hc). lia.
Qed.

(** X1: whatever the cooldown and the times of the attempts, each call
    that a fresh gate lets through comes at least the cooldown after
    the call before it, the first of them at least the cooldown after
    time 0, and the gate's ref holds the time of the last of them.  For
    a cooldown that is not negative, any two of the forwarded calls are
    at least the cooldown apart.  (For a negative cooldown they need not
    be: with a cooldown of -5 the attempts at 10, 6 and 2 all go
    through.) *)
Theorem forwarded_calls_are_spaced (delay : Z) (ts : list Z) :
  chain delay 0 (calls (attempt_all delay fresh ts)) /\
  lastCallRef (attempt_all delay fresh ts) =
    last (calls (attempt_all delay fresh ts)) 0 /\
  (0 <= delay ->
   forall i j,
     (i < j < List.length (calls (attempt_all delay fresh ts)))%nat ->
     delay <= nth j (calls (attempt_all delay fresh ts)) 0 -
              nth i (calls (attempt_all delay fresh ts)) 0).
Proof.
  assert (Hc : chain delay 0 (calls (attempt_all delay fresh ts)))
    by (apply (attempt_all_chain delay ts fresh); [reflexivity | exact I]).
  split; [exact Hc|]. split.
  - apply (attempt_all_ref delay ts fresh). reflexivity.
  - intros Hd i j Hij. apply (chain_pairwise delay _ 0 i j Hd Hc Hij).
Qed.

Lemma forwarded_calls_are_spaced_witness :
  let ts := [1700000000000; 1700000000400; 1700000001000; 1700000002500] in
  calls (attempt_all 1000 fresh ts) =
    [1700000000000; 1700000001000; 1700000002500] /\
  1000 <= nth 2 (calls (attempt_all 1000 fresh ts)) 0 -
          nth 0 (calls (attempt_all 1000 fresh ts)) 0.
Proof.
  split; [reflexivity|].
  apply (proj2 (proj2 (forwarded_calls_are_spaced 1000
           [1700000000000; 1700000000400; 1700000001000; 1700000002500]))).
  - lia.
  - change (List.length
              (calls (attempt_all 1000 fresh
                 [1700000000000; 1700000000400; 1700000001000; 1700000002500])))
      with 3%nat. lia.
Defined.

(** With a negative cooldown the calls go through in any order. *)
Example negative_cooldown_forwards_backwards :
  calls (attempt_all (-5) fresh [10; 6; 2]) = [10; 6; 2].
Proof. reflexivity. Qed.

(** X2: the window is counted from the last forwarded call, not from the
    last attempt: attempts inside the window leave the gate exactly as
    it was, however many they are, and the first attempt that comes a
    cooldown after the last forwarded call goes through. *)
Theorem suppressed_attempts_do_not_extend_window
    (delay : Z) (g : Gate) (ts : list Z) (t : Z) :
  Forall (fun t' => t' - lastCallRef g < delay) ts ->
  delay <= t - lastCallRef g ->
  attempt_all delay g ts = g /\
  attempt_all delay g (ts ++ [t]) = mkGate t (calls g ++ [t]).
Proof.
  intros Hts Ht.
  assert (Hsame : attempt_all delay g ts = g).
  { induction Hts as [|t' ts Ht' Hts IH]; simpl; [reflexivity|].
    rewrite ThrottleSpec.attempt_eq.
    apply ThrottleSpec.passes_false in Ht'. rewrite Ht'. exact IH. }
  split; [exact Hsame|].
  rewrite attempt_all_snoc, Hsame, ThrottleSpec.attempt_eq.
  apply ThrottleSpec.passes_spec in Ht. rewrite Ht. reflexivity.
Qed.

Lemma suppressed_attempts_do_not_extend_window_witness :
  let g := mkGate 1700000000000 [1700000000000] in
  attempt_all 1000 g [1700000000400; 1700000000800] = g /\
  attempt_all 1000 g [1700000000400; 1700000000800; 1700000001200] =
    mkGate 1700000001200 [1700000000000; 1700000001200].
Proof.
  apply (suppressed_attempts_do_not_extend_window 1000
           (mkGate 1700000000000 [1700000000000])
           [1700000000400; 1700000000800] 1700000001200).
  - repeat constructor.
  - vm_compute. discriminate.
Defined.

Lemma attempt_all_no_cooldown delay ts : forall g,
  delay <= 0 -> chain 0 (lastCallRef g) ts ->
  attempt_all delay g ts = mkGate (last ts (lastCallRef g)) (calls g ++ ts).
Proof.
  induction ts as [|t ts IH]; intros g Hd Hc.
  - simpl. rewrite app_nil_r. destruct g; reflexivity.
  - destruct Hc as [Ht Hc].
    assert (Hp : passes delay t (lastCallRef g) = true)
      by (apply ThrottleSpec.passes_spec; lia).
    change (attempt_all delay g (t :: ts))
      with (attempt_all delay (attempt delay t g) ts).
    rewrite ThrottleSpec.attempt_eq, Hp.
    rewrite IH by (simpl; assumption).
    rewrite last_cons. simpl. rewrite <- app_assoc. reflexivity.
Qed.

Lemma forwarded_no_cooldown delay ts : forall g,
  delay <= 0 -> chain 0 (lastCallRef g) ts ->
  forwarded delay g ts = map (fun _ => true) ts.
Proof.
  induction ts as [|t ts IH]; intros g Hd Hc; [reflexivity|].
  destruct Hc as [Ht Hts].
  assert (Hp : passes delay t (lastCallRef g) = true)
    by (apply ThrottleSpec.passes_spec; lia).
  simpl. rewrite ThrottleSpec.reached_eq, Hp. f_equal.
  apply IH; [exact Hd|]. rewrite ThrottleSpec.attempt_eq, Hp. exact Hts.
Qed.

(** X3: a cooldown of zero or less switches the gate off for a clock
    that does not run backwards: every attempt of a non-decreasing
    sequence of non-negative times is forwarded. *)
Theorem no_cooldown_forwards_everything (delay : Z) (ts : list Z) :
  delay <= 0 -> chain 0 0 ts ->
  calls (attempt_all delay fresh ts) = ts /\
  forwarded delay fresh ts = map (fun _ => true) ts.
Proof.
  intros Hd Hc. split.
  - rewrite (attempt_all_no_cooldown delay ts fresh Hd Hc). reflexivity.
  - apply forwarded_no_cooldown; assumption.
Qed.

Lemma no_cooldown_forwards_everything_witness :
  calls (attempt_all 0 fresh [1700000000000; 1700000000000; 1700000000001]) =
    [1700000000000; 1700000000000; 1700000000001].
Proof.
  apply (no_cooldown_forwards_everything 0
           [1700000000000; 1700000000000; 1700000000001]).
  - lia.
  - cbn [chain]. repeat split; vm_compute; discriminate.
Defined.

End ThrottleRuns.

(** * Further properties of the list controller *)

Module ControllerRuns.
Import BidirectionalList.
Import ControllerSpec.

Lemma count_snoc {T : Type} (f : T -> bool) l x :
  count f (l ++ [x]) = (count f l + (if f x then 1 else 0))%nat.
Proof.
  unfold count. rewrite filter_app, length_app. simpl.
  destruct (f x); reflexivity.
Qed.

Lemma count_cons {T : Type} (f : T -> bool) l x :
  count f (x :: l) = ((if f x then 1 else 0) + count f l)%nat.
Proof. unfold count. simpl. destruct (f x); reflexivity. Qed.

(** *** What an edge-fire does *)

Lemma saveScrollStates_frame a s :
  trace (saveScrollStates a s) = trace s /\
  viewportRef (saveScrollStates a s) = viewportRef s /\
  props (saveScrollStates a s) = props s.
Proof.
  unfold saveScrollStates. destruct (viewportRef s) eqn:Hv; [|auto].
  destruct (isColumn s); simpl; auto.
Qed.

Lemma step_fire_frame (s : State) (e : Action) (now : Z) :
  trace (step s (EdgeFire e now)) =
    trace s ++
    (if gate_open e now s && hasMore e (props s) && supplied e (props s)
     then [Call e] else []) /\
  viewportRef (step s (EdgeFire e now)) = viewportRef s /\
  props (step s (EdgeFire e now)) = props s.
Proof.
  rewrite step_fire. destruct (gate_open e now s) eqn:Hg.
  - rewrite throttled_open by exact Hg. cbn [snd andb].
    destruct (frame_set_lastCallRef_of e now s) as (_ & F2 & F3 & F4 & _).
    destruct (saveScrollStates_frame e (set_lastCallRef_of e now s))
      as (S1 & S2 & S3).
    destruct (hasMore e (props s)); [destruct (supplied e (props s))|];
      simpl; rewrite ?app_nil_r, ?S1, ?S2, ?S3, ?F2, ?F3, ?F4; auto.
  - rewrite throttled_closed by exact Hg. simpl. rewrite app_nil_r. auto.
Qed.

(** X4: an edge-fire never writes to the viewport, never logs and never
    changes the props: all it adds to the trace is the call of the
    callback of its own edge, and that exactly when it passes the gate,
    the flag of its edge is true and the callback was supplied. *)
Theorem fire_only_calls_back (s : State) (e : Action) (now : Z) :
  let s' := step s (EdgeFire e now) in
  trace s' =
    trace s ++
    (if gate_open e now s && hasMore e (props s) && supplied e (props s)
     then [Call e] else []) /\
  viewportRef s' = viewportRef s /\
  props s' = props s /\
  directionMemo s' = directionMemo s /\
  lastCallRef_of e s' = (if gate_open e now s then now else lastCallRef_of e s).
Proof.
  intros s'. unfold s'.
  destruct (step_fire_frame s e now) as (H1 & H2 & H3).
  split; [exact H1|]. split; [exact H2|]. split; [exact H3|].
  split; [apply step_directionMemo|].
  rewrite step_fire. destruct (gate_open e now s) eqn:Hg.
  - rewrite throttled_open by exact Hg. cbn [snd].
    unfold saveScrollStates. destruct e; break_matches; reflexivity.
  - rewrite throttled_closed by exact Hg. reflexivity.
Qed.

(** *** Counting writes, calls and pending edges *)

Lemma count_app {T : Type} (f : T -> bool) l1 l2 :
  count f (l1 ++ l2) = (count f l1 + count f l2)%nat.
Proof. unfold count. rewrite filter_app, length_app. reflexivity. Qed.

Lemma pending_count_le s : (pending_count s <= 1)%nat.
Proof. unfold pending_count. destruct (action s); lia. Qed.

(** What a settlement with an edge pending adds to the trace: at most
    one write, no call. *)
Lemma layoutEffect_trace s v a :
  viewportRef s = Some v -> action s = Some a ->
  exists l, trace (layoutEffect s) = trace s ++ l /\
    (count is_write l <= 1)%nat /\ count is_call l = 0%nat /\
    action (layoutEffect s) = None.
Proof.
  intros Hv Ha. unfold layoutEffect. rewrite Hv, Ha.
  unfold write_scrollLeft, write_scrollTop.
  repeat match goal with
         | |- context [if ?b then _ else _] => destruct b
         end;
    cbn [trace action setAction emit set_viewportRef];
    try (eexists; split; [reflexivity|]; unfold count; simpl; repeat split; lia).
  exists []. rewrite app_nil_r. unfold count; simpl. repeat split; lia.
Qed.

Lemma render_trace p s :
  exists l, trace (render p s) = trace s ++ l /\
    count is_write l = 0%nat /\ count is_call l = 0%nat /\
    action (render p s) = action s /\
    viewportRef (render p s) = viewportRef s.
Proof.
  unfold render, directionEffect.
  repeat match goal with
         | |- context [if ?b then _ else _] => destruct b
         end;
    cbn [trace action viewportRef emit set_props];
    try (eexists; split; [reflexivity|]; unfold count; simpl; repeat split; lia);
    exists []; rewrite app_nil_r; unfold count; simpl; repeat split; lia.
Qed.

Lemma step_counts s ev :
  (count is_write (trace (step s ev)) + pending_count (step s ev) <=
   count is_write (trace s) + pending_count s + (if is_fire ev then 1 else 0))%nat /\
  (count is_write (trace (step s ev)) <=
   count is_write (trace s) + (if is_settle ev then 1 else 0))%nat /\
  (count is_call (trace (step s ev)) <=
   count is_call (trace s) + (if is_fire ev then 1 else 0))%nat.
Proof.
  destruct ev as [e t| |p'|v|].
  - destruct (step_fire_frame s e t) as (Ht & _).
    pose proof (pending_count_le (step s (EdgeFire e t))) as Hp.
    rewrite Ht, !count_app. cbn [is_fire].
    assert (Hw : forall b : bool,
               count is_write (if b then [Call e] else []) = 0%nat)
      by (intros [|]; destruct e; reflexivity).
    assert (Hc : forall b : bool,
               (count is_call (if b then [Call e] else []) <= 1)%nat)
      by (intros [|]; destruct e; unfold count; simpl; lia).
    rewrite Hw. specialize (Hc (gate_open e t s && hasMore e (props s) &&
                                supplied e (props s))).
    repeat split; lia.
  - cbn [step is_fire is_settle].
    destruct (viewportRef s) as [v|] eqn:Hv;
      [destruct (action s) as [a|] eqn:Ha|].
    + destruct (layoutEffect_trace s v a Hv Ha) as (l & Hl & Hw & Hc & Hn).
      unfold pending_count. rewrite Hn, Ha, Hl, !count_app.
      repeat split; lia.
    + rewrite layoutEffect_idle by exact Ha. repeat split; lia.
    + rewrite layoutEffect_detached by exact Hv. repeat split; lia.
  - cbn [step is_fire is_settle].
    destruct (render_trace p' s) as (l & Hl & Hw & Hc & Ha & _).
    unfold pending_count. rewrite Ha, Hl, !count_app. repeat split; lia.
  - cbn [step is_fire is_settle]. destruct (viewportRef s);
      unfold pending_count; cbn [trace action set_viewportRef];
      repeat split; lia.
  - cbn [step is_fire is_settle]. unfold pending_count.
    cbn [trace action set_viewportRef]. repeat split; lia.
Qed.

Lemma run_counts evs : forall s,
  (count is_write (trace (run s evs)) + pending_count (run s evs) <=
   count is_write (trace s) + pending_count s + count is_fire evs)%nat /\
  (count is_write (trace (run s evs)) <=
   count is_write (trace s) + count is_settle evs)%nat /\
  (count is_call (trace (run s evs)) <=
   count is_call (trace s) + count is_fire evs)%nat.
Proof.
  induction evs as [|ev evs IH]; intros s.
  - unfold count; simpl. repeat split; lia.
  - change (run s (ev :: evs)) with (run (step s ev) evs).
    destruct (IH (step s ev)) as (I1 & I2 & I3).
    destruct (step_counts s ev) as (S1 & S2 & S3).
    rewrite !count_cons. repeat split; lia.
Qed.

(** X5: over any run of events from the mount, every write to the
    viewport was paid for by an edge-fire and by a settlement: the writes
    made plus the edge still pending are no more than the edge-fires, the
    writes are no more than the settlements, and the calls of [onHead] /
    [onTail] are no more than the edge-fires. *)
Theorem writes_are_bounded_by_fires_and_settlements
    (p : Props) (v : Viewport) (evs : list Event) :
  let s := run (mount p v) evs in
  (count is_write (trace s) + pending_count s <= count is_fire evs)%nat /\
  (count is_write (trace s) <= count is_settle evs)%nat /\
  (count is_call (trace s) <= count is_fire evs)%nat.
Proof.
  intros s. unfold s.
  destruct (run_counts evs (mount p v)) as (H1 & H2 & H3).
  rewrite mount_eq in H1, H2, H3 |- *. exact (conj H1 (conj H2 H3)).
Qed.

(** *** The cross axis *)

Ltac unfold_step :=
  unfold step, onHeadThrottled, onTailThrottled, Throttle.useThrottle,
    onHeadCallback, onTailCallback, saveScrollStates, layoutEffect, render,
    directionEffect, write_scrollLeft, write_scrollTop.

Ltac settle_forall :=
  rewrite ?Forall_app; repeat split; try assumption; repeat constructor.

Ltac eval_includes :=
  repeat match goal with
         | |- context [includes ?a ?b] =>
             let r := eval vm_compute in (includes a b) in
             change (includes a b) with r
         | |- context [horizontal ?a] =>
             let r := eval vm_compute in (horizontal a) in
             change (horizontal a) with r
         end.

Lemma step_cross_axis d s ev :
  recognized d -> directionMemo s = d ->
  Forall (fun e => is_cross_write d e = false) (trace s) ->
  cross_recorded_extent d (step s ev) = cross_recorded_extent d s /\
  cross_recorded_offset d (step s ev) = cross_recorded_offset d s /\
  Forall (fun e => is_cross_write d e = false) (trace (step s ev)).
Proof.
  intros Hd Hm Ht.
  destruct s as [p dm vr ac wr hr lr tr hl tl tc]. simpl in Hm, Ht. subst dm.
  unfold cross_recorded_extent, cross_recorded_offset.
  by_direction Hd; subst d;
    (destruct ev as [e t| |p'|v|]; [destruct e| | | |]);
    unfold_step; unfold isColumn;
    cbn [props directionMemo viewportRef action trace];
    eval_includes; simpl; break_matches; simpl;
    try discriminate;
    (split; [reflexivity|]; split; [reflexivity|]); settle_forall.
Qed.

Lemma run_cross_axis d evs : forall s,
  recognized d -> directionMemo s = d ->
  Forall (fun e => is_cross_write d e = false) (trace s) ->
  cross_recorded_extent d (run s evs) = cross_recorded_extent d s /\
  cross_recorded_offset d (run s evs) = cross_recorded_offset d s /\
  Forall (fun e => is_cross_write d e = false) (trace (run s evs)).
Proof.
  induction evs as [|ev evs IH]; intros s Hd Hm Ht; [auto|].
  change (run s (ev :: evs)) with (run (step s ev) evs).
  destruct (step_cross_axis d s ev Hd Hm Ht) as (S1 & S2 & S3).
  destruct (IH (step s ev) Hd) as (I1 & I2 & I3);
    [rewrite step_directionMemo; exact Hm | exact S3 |].
  rewrite I1, I2. auto.
Qed.

(** X6: a list mounted with one of the four directions never touches
    the cross axis: over any run of events it records no extent and no
    offset for it (the two refs stay at their initial 0) and it never
    assigns the cross-axis offset of the viewport. *)
Theorem cross_axis_is_never_touched (p : Props) (v : Viewport) (evs : list Event) :
  recognized (direction p) ->
  let d := direction p in
  let s := run (mount p v) evs in
  cross_recorded_extent d s = 0 /\
  cross_recorded_offset d s = 0 /\
  Forall (fun e => is_cross_write d e = false) (trace s).
Proof.
  intros Hd d s. unfold s.
  destruct (run_cross_axis d evs (mount p v) Hd) as (H1 & H2 & H3).
  - rewrite mount_eq. reflexivity.
  - rewrite mount_eq. constructor.
  - rewrite H1, H2. split; [|split; [|exact H3]];
      rewrite mount_eq; unfold cross_recorded_extent, cross_recorded_offset;
      destruct (horizontal d); reflexivity.
Qed.

Lemma cross_axis_is_never_touched_witness :
  let p := mkProps "column-reverse" true true None None true true in
  let s := run (mount p (mkViewport 80 1000 7 (-200)))
             [EdgeFire tail 1700000000000;
              Layout (mkViewport 80 1050 7 (-200)); Settle] in
  scrollWidthRef s = 0 /\ scrollLeftRef s = 0 /\
  Forall (fun e => is_cross_write "column-reverse" e = false) (trace s).
Proof.
  apply (cross_axis_is_never_touched
           (mkProps "column-reverse" true true None None true true)
           (mkViewport 80 1000 7 (-200))
           [EdgeFire tail 1700000000000;
            Layout (mkViewport 80 1050 7 (-200)); Settle]).
  right; right; right; reflexivity.
Defined.

(** *** After the viewport is gone *)

Lemma step_fire_record s e now :
  same_record s (step s (EdgeFire e now)) \/
  (viewportRef s <> None /\ gate_open e now s = true /\
   hasMore e (props s) = true /\ action (step s (EdgeFire e now)) = Some e).
Proof.
  rewrite step_fire. destruct (gate_open e now s) eqn:Hg.
  - rewrite throttled_open by exact Hg. cbn [snd].
    destruct (hasMore e (props s)) eqn:Hm.
    + destruct (viewportRef s) as [v|] eqn:Hv.
      * right. repeat split; try discriminate.
        unfold saveScrollStates.
        replace (viewportRef (set_lastCallRef_of e now s)) with (Some v)
          by (destruct e; symmetry; exact Hv).
        destruct (supplied e (props s)), (isColumn _); reflexivity.
      * left. rewrite saveScrollStates_detached by (destruct e; exact Hv).
        destruct (supplied e (props s)), e; repeat split.
    + left. destruct e; repeat split.
  - left. rewrite throttled_closed by exact Hg. apply same_record_refl.
Qed.

Lemma step_detached s ev :
  viewportRef s = None ->
  viewportRef (step s ev) = None /\ same_record s (step s ev) /\
  count is_write (trace (step s ev)) = count is_write (trace s).
Proof.
  intros Hv. destruct ev as [e t| |p'|v|].
  - destruct (step_fire_frame s e t) as (Ht & Hvp & _).
    split; [congruence|]. split.
    + destruct (step_fire_record s e t) as [H | (H & _)];
        [exact H | contradiction].
    + rewrite Ht, count_app.
      destruct (_ && _); destruct e; unfold count at 2; simpl; lia.
  - cbn [step]. rewrite layoutEffect_detached by exact Hv.
    repeat split. exact Hv.
  - cbn [step]. destruct (render_trace p' s) as (l & Hl & Hw & _ & _ & Hvp).
    split; [congruence|]. split; [apply (quiet_step s (Render p') I)|].
    rewrite Hl, count_app. lia.
  - cbn [step]. rewrite Hv. repeat split. exact Hv.
  - cbn [step]. repeat split.
Qed.

Lemma run_detached evs : forall s,
  viewportRef s = None ->
  viewportRef (run s evs) = None /\ same_record s (run s evs) /\
  count is_write (trace (run s evs)) = count is_write (trace s).
Proof.
  induction evs as [|ev evs IH]; intros s Hv.
  - repeat split. exact Hv.
  - change (run s (ev :: evs)) with (run (step s ev) evs).
    destruct (step_detached s ev Hv) as (S1 & S2 & S3).
    destruct (IH (step s ev) S1) as (I1 & I2 & I3).
    split; [exact I1|]. split; [|congruence].
    eapply same_record_trans; eassumption.
Qed.

(** X7: once the viewport is detached nothing is ever written again:
    over any run of events the handle stays absent (a layout does not
    bring it back), the pending edge and the recorded metrics stay as
    they are (a pending edge is never cleared), and the trace gains no
    write. *)
Theorem detached_viewport_is_final (s : State) (evs : list Event) :
  viewportRef s = None ->
  viewportRef (run s evs) = None /\
  action (run s evs) = action s /\
  scrollWidthRef (run s evs) = scrollWidthRef s /\
  scrollHeightRef (run s evs) = scrollHeightRef s /\
  scrollLeftRef (run s evs) = scrollLeftRef s /\
  scrollTopRef (run s evs) = scrollTopRef s /\
  count is_write (trace (run s evs)) = count is_write (trace s).
Proof.
  intros Hv.
  destruct (run_detached evs s Hv) as (H1 & (A & _ & W & H & L & T) & H3).
  repeat split; assumption.
Qed.

Lemma detached_viewport_is_final_witness :
  let s := run (mount (mkProps "row" true true None None true true)
                  (mkViewport 1000 80 200 0))
             [EdgeFire head 1700000000000; Detach] in
  let s' := run s [Layout (mkViewport 1400 80 200 0); Settle;
                   EdgeFire tail 1700000005000; Settle] in
  viewportRef s' = None /\ action s' = Some head /\
  count is_write (trace s') = 0%nat.
Proof.
  destruct (detached_viewport_is_final
              (run (mount (mkProps "row" true true None None true true)
                      (mkViewport 1000 80 200 0))
                 [EdgeFire head 1700000000000; Detach])
              [Layout (mkViewport 1400 80 200 0); Settle;
               EdgeFire tail 1700000005000; Settle] eq_refl)
    as (H1 & H2 & _ & _ & _ & _ & H3).
  repeat split; assumption.
Defined.

(** *** Two fires inside one cooldown *)

Lemma is_call_of_is_call e l :
  (count (is_call_of e) l <= count is_call l)%nat.
Proof.
  induction l as [|x l IH]; [unfold count; simpl; lia|].
  rewrite !count_cons. destruct e, x; simpl; lia.
Qed.

Lemma step_keeps_calls_of s ev e :
  (forall t, ev <> EdgeFire e t) ->
  count (is_call_of e) (trace (step s ev)) = count (is_call_of e) (trace s).
Proof.
  intros Hne. destruct ev as [e' t| |p'|v|].
  - destruct (step_fire_frame s e' t) as (Ht & _). rewrite Ht, count_app.
    assert (He : e' <> e) by (intros ->; apply (Hne t); reflexivity).
    destruct (_ && _); destruct e, e'; try (exfalso; apply He; reflexivity);
      unfold count at 2; simpl; lia.
  - cbn [step]. destruct (viewportRef s) as [v|] eqn:Hv;
      [destruct (action s) as [a|] eqn:Ha|].
    + destruct (layoutEffect_trace s v a Hv Ha) as (l & Hl & _ & Hc & _).
      rewrite Hl, count_app. pose proof (is_call_of_is_call e l). lia.
    + rewrite layoutEffect_idle by exact Ha. reflexivity.
    + rewrite layoutEffect_detached by exact Hv. reflexivity.
  - cbn [step]. destruct (render_trace p' s) as (l & Hl & _ & Hc & _).
    rewrite Hl, count_app. pose proof (is_call_of_is_call e l). lia.
  - cbn [step]. destruct (viewportRef s); reflexivity.
  - reflexivity.
Qed.

Lemma run_keeps_calls_of evs e : forall s,
  Forall (fun ev => forall t, ev <> EdgeFire e t) evs ->
  count (is_call_of e) (trace (run s evs)) = count (is_call_of e) (trace s).
Proof.
  induction evs as [|ev evs IH]; intros s H; [reflexivity|].
  inversion H as [|? ? Hev Hevs]; subst.
  change (run s (ev :: evs)) with (run (step s ev) evs).
  rewrite IH by exact Hevs. apply step_keeps_calls_of, Hev.
Qed.

Lemma fire_open_sets_ref s e now :
  gate_open e now s = true -> lastCallRef_of e (step s (EdgeFire e now)) = now.
Proof.
  intros Hg. rewrite step_fire, throttled_open by exact Hg. cbn [snd].
  unfold saveScrollStates.
  destruct e; break_matches; reflexivity.
Qed.

(** X8: two fires of one edge that come less than the cooldown apart
    call the callback of that edge at most once between them, whatever
    renders, layouts, settlements and fires of the other edge happen in
    between and whatever the state of the gate before the first. *)
Theorem two_fires_within_cooldown_call_once
    (s : State) (e : Action) (now now' : Z) (evs : list Event) :
  Forall (fun ev => forall t, ev <> EdgeFire e t) evs ->
  let s2 := run (step s (EdgeFire e now)) evs in
  now' - now < Throttle.delay_of (throttleDelay (props s2)) ->
  (count (is_call_of e) (trace (step s2 (EdgeFire e now'))) <=
   count (is_call_of e) (trace s) + 1)%nat.
Proof.
  intros Hevs s2 Hlt.
  assert (Hcall : forall x t, (count (is_call_of e) (trace (step x (EdgeFire e t))) <=
                               count (is_call_of e) (trace x) + 1)%nat).
  { intros x t. destruct (step_fire_frame x e t) as (Ht & _).
    rewrite Ht, count_app. destruct (_ && _); destruct e;
      unfold count at 2; simpl; lia. }
  assert (Hmid : count (is_call_of e) (trace s2) =
                 count (is_call_of e) (trace (step s (EdgeFire e now))))
    by (apply run_keeps_calls_of; exact Hevs).
  destruct (gate_open e now s) eqn:Hg.
  - assert (Hc : gate_open e now' s2 = false).
    { unfold gate_open, s2. rewrite lastCallRef_of_run by exact Hevs.
      rewrite (fire_open_sets_ref s e now Hg).
      apply ThrottleSpec.passes_false. exact Hlt. }
    rewrite step_fire, throttled_closed by exact Hc. cbn [snd].
    rewrite Hmid. apply Hcall.
  - assert (Hs : step s (EdgeFire e now) = s)
      by (rewrite step_fire, throttled_closed by exact Hg; reflexivity).
    rewrite Hs in Hmid. rewrite <- Hmid. apply Hcall.
Qed.

Lemma two_fires_within_cooldown_call_once_witness :
  let s := mount (mkProps "row" true true None None true true)
             (mkViewport 1000 80 200 0) in
  (count (is_call_of head)
     (trace (step (run (step s (EdgeFire head 1700000000000))
                     [Layout (mkViewport 1400 80 200 0); Settle;
                      EdgeFire tail 1700000000200])
               (EdgeFire head 1700000000400))) <= 0 + 1)%nat.
Proof.
  apply (two_fires_within_cooldown_call_once
           (mount (mkProps "row" true true None None true true)
              (mkViewport 1000 80 200 0))
           head 1700000000000 1700000000400
           [Layout (mkViewport 1400 80 200 0); Settle;
            EdgeFire tail 1700000000200]).
  - repeat constructor; discriminate.
  - reflexivity.
Defined.

(** *** From the observer to the pending edge *)

Lemma fire_enters s e now :
  viewportRef s <> None -> gate_open e now s = true ->
  hasMore e (props s) = true ->
  action (step s (EdgeFire e now)) = Some e.
Proof.
  intros Hv Hg Hm. rewrite step_fire, throttled_open by exact Hg.
  rewrite Hm. cbn [snd]. unfold saveScrollStates.
  destruct (viewportRef s) as [v|] eqn:Ev; [|contradiction Hv; reflexivity].
  replace (viewportRef (set_lastCallRef_of e now s)) with (Some v)
    by (destruct e; symmetry; exact Ev).
  destruct (supplied e (props s)), (isColumn _); reflexivity.
Qed.

Lemma observer_rendered_false e s :
  observer_rendered e s = false <-> action s = Some e.
Proof.
  unfold observer_rendered. destruct (action s) as [a|]; [|split; discriminate].
  destruct a, e; simpl; split; intros H; try reflexivity; discriminate H.
Qed.

(** X9: a notification from the observer of an edge is judged by its
    first entry alone.  With no entry the read of [entries[0]] throws;
    with a first entry of ratio 0 nothing happens, not even to the
    gate, whatever the later entries are; and the loader takes the
    place of a rendered observer exactly when the first entry
    intersects, the fire passes the gate, the flag of the edge is true
    and the viewport is attached. *)
Theorem notification_is_judged_by_first_entry
    (s : State) (e : Action) (entries : list Q) (now : Z) :
  (notify e entries now s = None <-> entries = []) /\
  (forall ratio rest, entries = ratio :: rest ->
     exists s', notify e entries now s = Some s' /\
       ((ratio <= 0)%Q -> s' = s) /\
       (observer_rendered e s = true ->
          (observer_rendered e s' = false <->
           (0 < ratio)%Q /\ gate_open e now s = true /\
           hasMore e (props s) = true /\ viewportRef s <> None))).
Proof.
  split.
  { unfold notify, Observer_callback. destruct entries; split;
      intros H; try reflexivity; discriminate H. }
  intros ratio rest ->. unfold notify, Observer_callback.
  eexists; split; [reflexivity|].
  destruct (Qle_bool ratio 0) eqn:Hq; cbn [negb].
  - apply Qle_bool_iff in Hq. split; [reflexivity|].
    intros Hr. rewrite Hr. split; [discriminate|].
    intros (Hlt & _). exfalso. exact (Qlt_not_le _ _ Hlt Hq).
  - assert (Hlt : (0 < ratio)%Q).
    { apply Qnot_le_lt. intros Hle. apply Qle_bool_iff in Hle. congruence. }
    split.
    { intros Hle. exfalso. exact (Qlt_not_le _ _ Hlt Hle). }
    intros Hr. rewrite <- step_fire. rewrite observer_rendered_false.
    split.
    + intros Ha. destruct (step_fire_record s e now)
        as [(Hsame & _) | (Hv & Hg & Hm & _)].
      * exfalso. rewrite Hsame in Ha.
        apply observer_rendered_false in Ha. congruence.
      * auto.
    + intros (_ & Hg & Hm & Hv). apply fire_enters; assumption.
Qed.

Lemma notification_is_judged_by_first_entry_witness :
  let s := mount (mkProps "row" true true None None true true)
             (mkViewport 1000 80 200 0) in
  notify head [0%Q; (1 # 2)%Q] 1700000000000 s = Some s /\
  exists s', notify head [(1 # 2)%Q; 0%Q] 1700000000000 s = Some s' /\
    observer_rendered head s' = false.
Proof.
  split.
  - destruct (proj2 (notification_is_judged_by_first_entry
               (mount (mkProps "row" true true None None true true)
                  (mkViewport 1000 80 200 0))
               head [0%Q; (1 # 2)%Q] 1700000000000) 0%Q [(1 # 2)%Q] eq_refl)
      as (s' & Hs & H0 & _).
    rewrite Hs. f_equal. apply H0. apply Qle_refl.
  - destruct (proj2 (notification_is_judged_by_first_entry
               (mount (mkProps "row" true true None None true true)
                  (mkViewport 1000 80 200 0))
               head [(1 # 2)%Q; 0%Q] 1700000000000) (1 # 2)%Q [0%Q] eq_refl)
      as (s' & Hs & _ & H1).
    exists s'. split; [exact Hs|]. apply H1; [reflexivity|].
    repeat split; try reflexivity. discriminate.
Defined.

End ControllerRuns.

(** * Properties of utils/random *)

Module RandomSpec.
Import Random.

(** X10: for integer arguments in the safe range whose difference is in
    the safe range too, a positive stride that fits between the bounds
    and a draw that lies in the range, [randInt(min, max, stride)]
    returns a number of the form [min + stride * k] that is at least
    [min] and at most [max - stride]: it is never [max], and it is a
    safe integer again.  The forms with one and with two arguments are
    the same call with [min = 0] and [stride = 1]. *)
Theorem randInt_stays_below_max
    (pick : nat -> Z -> Z) (min max stride : Z) (calls : nat) :
  safe_integer min -> safe_integer max -> safe_integer (max - min) ->
  0 < stride -> min + stride <= max ->
  fair pick calls ((max - min) / stride) ->
  exists r,
    randInt pick [min; max; stride] calls = (Ok (Num r), S calls) /\
    min <= r <= max - stride /\
    (r - min) mod stride = 0 /\
    safe_integer r /\
    safe_integer (stride * pick calls ((max - min) / stride)) /\
    randInt pick [max] calls = randInt pick [0; max; 1] calls /\
    randInt pick [min; max] calls = randInt pick [min; max; 1] calls.
Proof.
  unfold safe_integer. intros Smin Smax Sdiff Hs Hm [Hk0 Hk1].
  exists (min + stride * pick calls ((max - min) / stride)).
  assert (Hne : (stride =? 0) = false) by (apply Z.eqb_neq; lia).
  unfold randInt. rewrite Hne.
  split; [reflexivity|].
  assert (Hq : stride * ((max - min) / stride) <= max - min)
    by (apply Z.mul_div_le; exact Hs).
  assert (Hr : min <= min + stride * pick calls ((max - min) / stride) <=
               max - stride) by nia.
  split; [exact Hr|].
  split.
  { replace (min + stride * pick calls ((max - min) / stride) - min)
      with (pick calls ((max - min) / stride) * stride) by lia.
    apply Z_mod_mult. }
  split; [lia|]. split; [nia|]. split; reflexivity.
Qed.

Lemma randInt_stays_below_max_witness :
  exists r,
    randInt (fun _ range => range - 1) [2; 11; 3] 0 = (Ok (Num r), 1%nat) /\
    2 <= r <= 11 - 3.
Proof.
  destruct (randInt_stays_below_max (fun _ range => range - 1) 2 11 3 0)
    as (r & H1 & H2 & _).
  - unfold safe_integer. lia.
  - unfold safe_integer. lia.
  - unfold safe_integer. lia.
  - lia.
  - lia.
  - unfold fair. change ((11 - 2) / 3) with 3. simpl. lia.
  - exists r. split; assumption.
Defined.

(** Two hexadecimal digits and back, for every byte. *)
Lemma hex_bytes_checked :
  forallb
    (fun k =>
       match hex (Num (Z.of_nat k)) with
       | String c1 (String c2 EmptyString) =>
           match parse_hex2 (String c1 (String c2 EmptyString)) with
           | Some m => m =? Z.of_nat k
           | None => false
           end
       | _ => false
       end) (seq 0 256) = true.
Proof. vm_compute. reflexivity. Qed.

Lemma hex_byte n :
  0 <= n < 256 ->
  exists c1 c2, hex (Num n) = String c1 (String c2 EmptyString) /\
    parse_hex2 (String c1 (String c2 EmptyString)) = Some n.
Proof.
  intros Hn.
  pose proof hex_bytes_checked as H. rewrite forallb_forall in H.
  specialize (H (Z.to_nat n)).
  rewrite Z2Nat.id in H by lia.
  assert (Hin : In (Z.to_nat n) (seq 0 256)) by (apply in_seq; lia).
  specialize (H Hin).
  destruct (hex (Num n)) as [|c1 [|c2 [|c3 rest]]]; try discriminate H.
  exists c1, c2. split; [reflexivity|].
  destruct (parse_hex2 (String c1 (String c2 EmptyString)));
    [|discriminate H].
  apply Z.eqb_eq in H. congruence.
Qed.

(** X11: [hex] writes a byte as exactly two lower-case hexadecimal
    digits, and reading the two digits gives the byte back. *)
Theorem hex_round_trip (n : Z) :
  0 <= n < 256 ->
  String.length (hex (Num n)) = 2%nat /\
  parse_hex2 (hex (Num n)) = Some n.
Proof.
  intros Hn. destruct (hex_byte n Hn) as (c1 & c2 & Hh & Hp).
  rewrite Hh. split; [reflexivity | exact Hp].
Qed.

Lemma hex_round_trip_witness :
  String.length (hex (Num 10)) = 2%nat /\ parse_hex2 (hex (Num 10)) = Some 10.
Proof. apply (hex_round_trip 10). lia. Defined.

(** X12: when its three draws lie in the range, [randHexColor()] makes
    three calls of [Math.random()] and returns [#] followed by six
    hexadecimal digits that read back as the three draws; each channel
    is at most 254, so the colour is never [#ffffff]. *)
Theorem randHexColor_is_a_colour (pick : nat -> Z -> Z) (calls : nat) :
  fair pick calls 255 -> fair pick (S calls) 255 -> fair pick (S (S calls)) 255 ->
  exists col,
    randHexColor pick calls = (Ok col, S (S (S calls))) /\
    String.length col = 7%nat /\
    parse_color col =
      Some (pick calls 255, pick (S calls) 255, pick (S (S calls)) 255) /\
    0 <= pick calls 255 <= 254 /\
    0 <= pick (S calls) 255 <= 254 /\
    0 <= pick (S (S calls)) 255 <= 254 /\
    col <> "#ffffff".
Proof.
  unfold fair. intros Hr Hg Hb.
  unfold randHexColor, randInt.
  change ((255 - 0) / 1) with 255. cbn [Z.eqb].
  replace (0 + 1 * pick calls 255) with (pick calls 255) by lia.
  replace (0 + 1 * pick (S calls) 255) with (pick (S calls) 255) by lia.
  replace (0 + 1 * pick (S (S calls)) 255) with (pick (S (S calls)) 255) by lia.
  destruct (hex_byte (pick calls 255)) as (r1 & r2 & Hhr & Hpr); [lia|].
  destruct (hex_byte (pick (S calls) 255)) as (g1 & g2 & Hhg & Hpg); [lia|].
  destruct (hex_byte (pick (S (S calls)) 255)) as (b1 & b2 & Hhb & Hpb); [lia|].
  eexists. split; [reflexivity|].
  rewrite Hhr, Hhg, Hhb.
  assert (Hc : parse_color
                 ("#" ++ String r1 (String r2 "") ++ String g1 (String g2 "") ++
                  String b1 (String b2 ""))%string =
               Some (pick calls 255, pick (S calls) 255, pick (S (S calls)) 255)).
  { cbn [append parse_color]. rewrite Hpr, Hpg, Hpb. reflexivity. }
  split; [reflexivity|]. split; [exact Hc|].
  repeat (split; [lia|]).
  intros Heq. rewrite Heq in Hc. vm_compute in Hc.
  injection Hc as H1 _ _. lia.
Qed.

Lemma randHexColor_is_a_colour_witness :
  exists col,
    randHexColor (fun n _ => Z.of_nat n * 100) 0 = (Ok col, 3%nat) /\
    parse_color col = Some (0, 100, 200).
Proof.
  destruct (randHexColor_is_a_colour (fun n _ => Z.of_nat n * 100) 0)
    as (col & H1 & _ & H2 & _); try (unfold fair; simpl; lia).
  exists col. split; assumption.
Defined.

End RandomSpec.

(** * Properties of the demo list *)

Module TestListSpec.
Import Random TestList.

Lemma upto_length a n : List.length (upto a n) = n.
Proof. revert a. induction n as [|n IH]; intros a; simpl; [|rewrite IH]; reflexivity. Qed.

Lemma upto_app n m : forall a,
  upto a n ++ upto (a + Z.of_nat n) m = upto a (n + m).
Proof.
  induction n as [|n IH]; intros a.
  - simpl. rewrite Z.add_0_r. reflexivity.
  - cbn [upto Nat.add app]. rewrite <- IH. do 3 f_equal. lia.
Qed.

Lemma upto_shift c n : forall k,
  map (fun i => c + i) (upto k n) = upto (c + k) n.
Proof.
  induction n as [|n IH]; intros k; simpl; [reflexivity|].
  rewrite IH. do 2 f_equal. lia.
Qed.

Lemma upto_last n : forall a d, last (upto a (S n)) d = a + Z.of_nat n.
Proof.
  induction n as [|n IH]; intros a d.
  - simpl. lia.
  - change (upto a (S (S n))) with (a :: upto (a + 1) (S n)).
    change (last (a :: upto (a + 1) (S n)) d) with (last (upto (a + 1) (S n)) d).
    rewrite IH. lia.
Qed.

Lemma upto_consecutive n : forall a, consecutive (upto a n).
Proof.
  induction n as [|n IH]; intros a; [exact I|].
  destruct n as [|n]; [exact I|].
  change (upto a (S (S n))) with (a :: upto (a + 1) (S n)).
  split; [reflexivity | apply IH].
Qed.

Lemma upto_In a n x : In x (upto a n) -> a <= x.
Proof.
  revert a. induction n as [|n IH]; intros a; simpl; [contradiction|].
  intros [<- | H]; [lia|]. apply IH in H. lia.
Qed.

Lemma upto_NoDup n : forall a, NoDup (upto a n).
Proof.
  induction n as [|n IH]; intros a; simpl; constructor.
  - intros H. apply upto_In in H. lia.
  - apply IH.
Qed.

(** [randHexColor] calls [randInt] with one argument and so never
    throws. *)
Lemma randHexColor_ok pick calls :
  exists col, randHexColor pick calls = (Ok col, S (S (S calls))).
Proof. unfold randHexColor, randInt. cbn [Z.eqb]. eexists. reflexivity. Qed.

Lemma make_items_ok pick id_of sz n : forall k calls,
  exists items,
    make_items pick n k id_of sz calls = (Ok items, (calls + 3 * n)%nat) /\
    map id items = map id_of (upto k n) /\
    Forall (fun d => size d = sz) items.
Proof.
  induction n as [|n IH]; intros k calls.
  - exists []. simpl. rewrite Nat.add_0_r. repeat split. constructor.
  - cbn [make_items].
    destruct (randHexColor_ok pick calls) as (col & ->).
    destruct (IH (k + 1) (S (S (S calls)))) as (items & -> & Hid & Hsz).
    eexists. split; [f_equal; lia|].
    split; [simpl; rewrite Hid; reflexivity|].
    constructor; [reflexivity | exact Hsz].
Qed.

Lemma max_last data : max data = last (map id data) 0.
Proof.
  unfold max. destruct data as [|d data] using rev_ind; [reflexivity|].
  rewrite rev_app_distr, map_app. simpl. rewrite last_last. reflexivity.
Qed.

Lemma count_is_batch p data :
  0 < batchSize_of p ->
  unshift_count p data = batchSize_of p /\ push_count p data = batchSize_of p.
Proof.
  intros Hb. unfold unshift_count, push_count.
  destruct (truthy (idMin p)), (truthy (idMax p)); split; lia.
Qed.

Lemma count_is_not_positive p data :
  batchSize_of p <= 0 ->
  unshift_count p data <= 0 /\ push_count p data <= 0.
Proof.
  intros Hb. unfold unshift_count, push_count.
  destruct (truthy (idMin p)), (truthy (idMax p)); split; lia.
Qed.

Lemma unshift_full_batch
    (pick : nat -> Z -> Z) (p : TestListProps) (data : list TestData)
    (calls : nat) :
  0 < batchSize_of p ->
  exists newData,
    unshiftData pick p data calls =
      (Ok (newData ++ data), (calls + 3 * Z.to_nat (batchSize_of p))%nat) /\
    map id newData = upto (min data - batchSize_of p) (Z.to_nat (batchSize_of p)) /\
    Forall (fun d => size d = listItemMainSize p) newData.
Proof.
  intros Hb.
  destruct (count_is_batch p data Hb) as (Hu & _).
  assert (Hne : (batchSize_of p =? 0) = false) by (apply Z.eqb_neq; lia).
  unfold unshiftData. rewrite Hu, Hne.
  destruct (make_items_ok pick (fun k => min data - batchSize_of p + k)
              (listItemMainSize p) (Z.to_nat (batchSize_of p)) 0 calls)
    as (items & -> & Hid & Hsz).
  exists items. split; [reflexivity|]. split; [|exact Hsz].
  rewrite Hid, upto_shift. f_equal. lia.
Qed.

Lemma push_full_batch
    (pick : nat -> Z -> Z) (p : TestListProps) (data : list TestData)
    (calls : nat) :
  0 < batchSize_of p ->
  exists newData,
    pushData pick p data calls =
      (Ok (data ++ newData), (calls + 3 * Z.to_nat (batchSize_of p))%nat) /\
    map id newData = upto (max data + 1) (Z.to_nat (batchSize_of p)) /\
    Forall (fun d => size d = listItemMainSize p) newData.
Proof.
  intros Hb.
  destruct (count_is_batch p data Hb) as (_ & Hp).
  assert (Hne : (batchSize_of p =? 0) = false) by (apply Z.eqb_neq; lia).
  unfold pushData. rewrite Hp, Hne.
  destruct (make_items_ok pick (fun k => max data + 1 + k)
              (listItemMainSize p) (Z.to_nat (batchSize_of p)) 0 calls)
    as (items & -> & Hid & Hsz).
  exists items. split; [reflexivity|]. split; [|exact Hsz].
  rewrite Hid, upto_shift. f_equal. lia.
Qed.



Lemma unshift_empty_batch
    (pick : nat -> Z -> Z) (p : TestListProps) (data : list TestData)
    (calls : nat) :
  batchSize_of p <= 0 -> unshiftData pick p data calls = (Ok data, calls).
Proof.
  intros Hb. destruct (count_is_not_positive p data Hb) as (Hu & _).
  unfold unshiftData.
  destruct (unshift_count p data =? 0); [reflexivity|].
  replace (Z.to_nat (unshift_count p data)) with 0%nat by lia.
  reflexivity.
Qed.

Lemma push_empty_batch
    (pick : nat -> Z -> Z) (p : TestListProps) (data : list TestData)
    (calls : nat) :
  batchSize_of p <= 0 -> pushData pick p data calls = (Ok data, calls).
Proof.
  intros Hb. destruct (count_is_not_positive p data Hb) as (_ & Hp).
  unfold pushData.
  destruct (push_count p data =? 0); [reflexivity|].
  replace (Z.to_nat (push_count p data)) with 0%nat by lia.
  simpl. rewrite app_nil_r. reflexivity.
Qed.

(** X14: with a [batchSize] of zero or less neither load changes the
    data or calls [Math.random()]. *)
Theorem load_of_empty_batch_is_noop
    (pick : nat -> Z -> Z) (p : TestListProps) (data : list TestData)
    (calls : nat) :
  batchSize_of p <= 0 ->
  unshiftData pick p data calls = (Ok data, calls) /\
  pushData pick p data calls = (Ok data, calls).
Proof.
  intros Hb. split.
  - apply unshift_empty_batch, Hb.
  - apply push_empty_batch, Hb.
Qed.

Lemma load_of_empty_batch_is_noop_witness :
  let p := mkTestListProps "column" (Some (-3)) None (Some 5) in
  pushData (fun _ _ => 7) p (initial_data p) 0 = (Ok (initial_data p), 0%nat).
Proof.
  apply (load_of_empty_batch_is_noop (fun _ _ => 7)
           (mkTestListProps "column" (Some (-3)) None (Some 5))
           (initial_data (mkTestListProps "column" (Some (-3)) None (Some 5))) 0).
  unfold batchSize_of. simpl. lia.
Defined.

(** *** The ids of the items *)

Lemma min_cons_map data a rest :
  map id data = a :: rest -> min data = a.
Proof. destruct data; simpl; intros H; [discriminate|]. congruence. Qed.

Lemma well_numbered_max data :
  well_numbered data -> max data = min data + Z.of_nat (List.length data) - 1.
Proof.
  intros (Hne & Hid & _). rewrite max_last, Hid.
  destruct data as [|d data]; [contradiction Hne; reflexivity|].
  cbn [List.length]. rewrite upto_last. lia.
Qed.

Lemma unshift_keeps_numbering data newData b :
  well_numbered data -> 0 < b ->
  map id newData = upto (min data - b) (Z.to_nat b) ->
  well_numbered (newData ++ data) /\ max (newData ++ data) = max data.
Proof.
  intros Hw Hb Hnew. pose proof (well_numbered_max data Hw) as Hmax.
  destruct Hw as (Hne & Hid & Hz).
  assert (Hn : Z.of_nat (Z.to_nat b) = b) by lia.
  assert (Hmin : min (newData ++ data) = min data - b).
  { apply (min_cons_map _ _ (upto (min data - b + 1) (Z.to_nat b - 1) ++ map id data)).
    rewrite map_app, Hnew.
    destruct (Z.to_nat b) as [|n] eqn:En; [lia|].
    simpl. rewrite Nat.sub_0_r. reflexivity. }
  assert (Hids : map id (newData ++ data) =
                 upto (min data - b) (Z.to_nat b + List.length data)).
  { rewrite map_app, Hnew, Hid, <- upto_app. do 2 f_equal. lia. }
  assert (Hmax' : max (newData ++ data) = max data).
  { rewrite max_last, Hids, Hmax.
    destruct (Z.to_nat b + List.length data)%nat as [|m] eqn:Em; [lia|].
    rewrite upto_last. lia. }
  split; [|exact Hmax'].
  split; [destruct newData; [exact Hne | discriminate]|].
  split.
  - rewrite Hmin, Hids, length_app.
    f_equal. f_equal. rewrite <- (upto_length (min data - b) (Z.to_nat b)).
    rewrite <- Hnew. apply length_map.
  - rewrite Hmin, Hmax'. lia.
Qed.

Lemma push_keeps_numbering data newData b :
  well_numbered data -> 0 < b ->
  map id newData = upto (max data + 1) (Z.to_nat b) ->
  well_numbered (data ++ newData) /\ min (data ++ newData) = min data.
Proof.
  intros Hw Hb Hnew. pose proof (well_numbered_max data Hw) as Hmax.
  destruct Hw as (Hne & Hid & Hz).
  assert (Hmin : min (data ++ newData) = min data).
  { destruct data; [contradiction Hne; reflexivity | reflexivity]. }
  assert (Hids : map id (data ++ newData) =
                 upto (min data) (List.length data + Z.to_nat b)).
  { rewrite map_app, Hnew, Hid, <- upto_app. do 2 f_equal. lia. }
  split; [|exact Hmin].
  split; [destruct data; [contradiction Hne; reflexivity | discriminate]|].
  split.
  - rewrite Hmin, Hids, length_app.
    f_equal. f_equal. rewrite <- (upto_length (max data + 1) (Z.to_nat b)).
    rewrite <- Hnew. apply length_map.
  - rewrite Hmin, max_last, Hids.
    destruct (List.length data + Z.to_nat b)%nat as [|m] eqn:Em; [lia|].
    rewrite upto_last. lia.
Qed.

Lemma load_keeps_numbering pick l data calls :
  well_numbered data ->
  exists data' c, load pick l data calls = (Ok data', c) /\
    well_numbered data' /\
    match l with
    | Unshift _ => max data' = max data
    | Push _ => min data' = min data
    end.
Proof.
  intros Hw. destruct l as [p|p]; cbn [load].
  - destruct (Z_lt_le_dec 0 (batchSize_of p)) as [Hb|Hb].
    + destruct (unshift_full_batch pick p data calls Hb) as (nd & -> & Hid & _).
      destruct (unshift_keeps_numbering data nd _ Hw Hb Hid) as (H1 & H2).
      eauto.
    + rewrite (unshift_empty_batch pick p data calls Hb). eauto.
  - destruct (Z_lt_le_dec 0 (batchSize_of p)) as [Hb|Hb].
    + destruct (push_full_batch pick p data calls Hb) as (nd & -> & Hid & _).
      destruct (push_keeps_numbering data nd _ Hw Hb Hid) as (H1 & H2).
      eauto.
    + rewrite (push_empty_batch pick p data calls Hb). eauto.
Qed.

Lemma loads_keep_numbering pick ls : forall data calls,
  well_numbered data -> well_numbered (fst (loads pick ls data calls)).
Proof.
  induction ls as [|l ls IH]; intros data calls Hw; [exact Hw|].
  cbn [loads].
  destruct (load_keeps_numbering pick l data calls Hw) as (d' & c & -> & Hw' & _).
  apply IH, Hw'.
Qed.

Lemma initial_data_well_numbered p : well_numbered (initial_data p).
Proof. repeat split; [discriminate | reflexivity | reflexivity]. Qed.

Lemma load_on_fresh pick l data calls :
  load_on pick l data data calls = load pick l data calls.
Proof. destruct l; reflexivity. Qed.

Lemma list_run_keeps_numbering pick evs : forall stale st,
  committed stale evs ->
  well_numbered (current st) ->
  (stale = false -> rendered st = current st) ->
  well_numbered (current (list_run pick st evs)).
Proof.
  induction evs as [|ev evs IH]; intros stale st Hc Hw Hf; [exact Hw|].
  change (list_run pick st (ev :: evs))
    with (list_run pick (list_step pick st ev) evs).
  destruct ev as [|l]; cbn [committed] in Hc.
  - apply (IH false); [exact Hc | exact Hw | reflexivity].
  - destruct Hc as [Hs Hc]. specialize (Hf Hs).
    cbn [list_step]. rewrite Hf, load_on_fresh.
    destruct (load_keeps_numbering pick l (current st) (draws st) Hw)
      as (d' & c & -> & Hw' & _).
    apply (IH true); [exact Hc | exact Hw' | discriminate].
Qed.

(** X15: when a render comes between any two calls of the load
    callbacks, so that each call closes over the data that the calls
    before it left, then whatever loads were made, with whatever
    props, the data of the list are never empty, the ids of the items
    go up by one from item to item, so that no React key occurs twice,
    and the item of id 0 is still there.  (Two calls of the callback of
    one render do repeat ids: see [stale_closure_repeats_ids].) *)
Theorem ids_are_consecutive
    (pick : nat -> Z -> Z) (p : TestListProps) (evs : list ListEvent)
    (calls : nat) :
  committed false evs ->
  let data := current (list_run pick (initial_list p calls) evs) in
  data <> [] /\
  map id data = upto (min data) (List.length data) /\
  consecutive (map id data) /\
  NoDup (map id data) /\
  min data <= 0 <= max data.
Proof.
  intros Hc data.
  destruct (list_run_keeps_numbering pick evs false (initial_list p calls) Hc
              (initial_data_well_numbered p) (fun _ => eq_refl))
    as (H1 & H2 & H3).
  fold data in H1, H2, H3.
  split; [exact H1|]. split; [exact H2|].
  rewrite H2. split; [apply upto_consecutive|].
  split; [apply upto_NoDup | exact H3].
Qed.

Lemma ids_are_consecutive_witness :
  let p := mkTestListProps "row" (Some 2) None None in
  let data := current (list_run (fun _ _ => 7) (initial_list p 0)
                [Invoke (Unshift p); Commit; Invoke (Unshift p); Commit;
                 Invoke (Push p)]) in
  map id data = [-4; -3; -2; -1; 0; 1; 2] /\ NoDup (map id data).
Proof.
  split; [reflexivity|].
  apply (ids_are_consecutive (fun _ _ => 7)
           (mkTestListProps "row" (Some 2) None None)
           [Invoke (Unshift (mkTestListProps "row" (Some 2) None None)); Commit;
            Invoke (Unshift (mkTestListProps "row" (Some 2) None None)); Commit;
            Invoke (Push (mkTestListProps "row" (Some 2) None None))] 0).
  cbn [committed]. repeat split.
Defined.

(** Two calls of [unshiftData] from one render: both compute the ids
    from the same [min], and the second batch goes in front of the
    first. *)
Example stale_closure_repeats_ids :
  let p := mkTestListProps "row" (Some 2) None None in
  map id (current (list_run (fun _ _ => 7) (initial_list p 0)
            [Invoke (Unshift p); Invoke (Unshift p)])) = [-2; -1; -2; -1; 0].
Proof. reflexivity. Qed.

(** *** The flags handed to the list *)

Lemma loads_one_side pick ls : forall data calls,
  well_numbered data ->
  (Forall (fun l => exists p, l = Unshift p) ls ->
   max (fst (loads pick ls data calls)) = max data) /\
  (Forall (fun l => exists p, l = Push p) ls ->
   min (fst (loads pick ls data calls)) = min data).
Proof.
  induction ls as [|l ls IH]; intros data calls Hw; [split; reflexivity|].
  cbn [loads].
  destruct (load_keeps_numbering pick l data calls Hw) as (d' & c & -> & Hw' & Hl).
  destruct (IH d' c Hw') as (I1 & I2).
  split; intros H; inversion H as [|? ? (q & Hq) Hrest]; subst.
  - rewrite I1 by exact Hrest. exact Hl.
  - rewrite I2 by exact Hrest. exact Hl.
Qed.

(** X16: [hasMoreAtHead] is computed from [idMax] and the last id, and
    [hasMoreAtTail] from [idMin] and the first id.  So loads at the
    head, however many, never change [hasMoreAtHead], and loads at the
    tail never change [hasMoreAtTail]. *)
Theorem loads_do_not_change_their_own_flag
    (pick : nat -> Z -> Z) (p q : TestListProps) (ls : list Load) (calls : nat) :
  let data := initial_data p in
  let data' := fst (loads pick ls data calls) in
  (Forall (fun l => exists p', l = Unshift p') ls ->
   max data' = max data /\ hasMoreAtHead q data' = hasMoreAtHead q data) /\
  (Forall (fun l => exists p', l = Push p') ls ->
   min data' = min data /\ hasMoreAtTail q data' = hasMoreAtTail q data).
Proof.
  intros data data'.
  destruct (loads_one_side pick ls data calls (initial_data_well_numbered p))
    as (H1 & H2).
  fold data' in H1, H2.
  split; intros H.
  - specialize (H1 H). split; [exact H1|].
    unfold hasMoreAtHead. rewrite H1. reflexivity.
  - specialize (H2 H). split; [exact H2|].
    unfold hasMoreAtTail. rewrite H2. reflexivity.
Qed.

Lemma loads_do_not_change_their_own_flag_witness :
  let p := mkTestListProps "row" (Some 2) (Some (-3)) (Some 4) in
  let data' := fst (loads (fun _ _ => 7) [Unshift p; Unshift p; Unshift p]
                      (initial_data p) 0) in
  List.length data' = 7%nat /\ min data' = -6 /\
  hasMoreAtHead p data' = hasMoreAtHead p (initial_data p).
Proof.
  split; [reflexivity|]. split; [reflexivity|].
  apply (proj1 (loads_do_not_change_their_own_flag (fun _ _ => 7)
           (mkTestListProps "row" (Some 2) (Some (-3)) (Some 4))
           (mkTestListProps "row" (Some 2) (Some (-3)) (Some 4))
           [Unshift (mkTestListProps "row" (Some 2) (Some (-3)) (Some 4));
            Unshift (mkTestListProps "row" (Some 2) (Some (-3)) (Some 4));
            Unshift (mkTestListProps "row" (Some 2) (Some (-3)) (Some 4))] 0)).
  repeat constructor; eexists; reflexivity.
Defined.

End TestListSpec.
